(** * SchemaService: versioned field/header schemas for sheet-backed tables

    Shallow embedding of [src/SchemaService.js] and proofs of the properties
    listed in the schema-registry specification.

    Modelling conventions.
    - A JavaScript string is its sequence of UTF-16 code units ([jsstring]);
      [String.prototype.trim] is modelled on code units with the ECMAScript
      WhiteSpace and LineTerminator sets.
    - A schema object ([{ field: 'Header', ... }]) is enumerated by the code
      ([Object.values], [Object.entries], object spread), so it is an ordered
      list of own properties that follows the ECMAScript property order
      (array-index keys ascending first, then the other keys in creation
      order): module [Obj].
    - [schemas], the per-sheet version table, [currentVersions], the reverse
      lookup and the mapped row are objects that the code only reads and writes
      by key; their own properties are finite maps ([gmap]).  A [Set] is a
      finite set ([gset]), its iteration an enumeration of the elements.
    - In the code a read [obj[key]] that finds no own property continues in
      [Object.prototype], and a write under ["__proto__"] runs the inherited
      setter.  The two objects [mapRowToObject] builds, [reverse] and
      [mappedData], are read and written that way ([read], [assign]), and
      so is the version that the guard of [setVersion] looks up in a version
      table ([has_member]).  The other reads and the writes of the registry
      ([schemas], the version tables, [currentVersions]) are modelled on own
      properties: there the embedding describes the code wherever no read
      misses, and no write is made, at a name that [Object.prototype]
      defines ([Object_prototype_names]), and the statements that depend on
      it carry that as a hypothesis ([plain_name], [plain_call]).
    - The methods run in a small state-and-exception monad over the service
      object, so that what a call leaves behind when it throws is explicit.
      [console.log] lines and [EventBus.emit] calls are recorded in a trace;
      the event bus is an external collaborator and is taken not to throw. *)

From stdpp Require Import gmap list fin_maps strings.
From Stdlib Require Import NArith.

Local Open Scope N_scope.

(** ** JavaScript strings *)

Abbreviation jsstring := (list N) (only parsing).

(** The code units of an ASCII literal. *)
Definition str (s : string) : jsstring :=
  (λ a, Ascii.N_of_ascii a) <$> String.list_ascii_of_string s.
Arguments str : simpl never.

(** ECMAScript WhiteSpace (TAB, VT, FF, SP, NBSP, ZWNBSP and the Unicode
    space separators) and LineTerminator (LF, CR, LS, PS) code units: the
    characters [trim] strips. *)
Definition is_white (c : N) : bool :=
  ((9 <=? c) && (c <=? 13))
  || (c =? 32) || (c =? 160) || (c =? 5760)
  || ((8192 <=? c) && (c <=? 8202))
  || (c =? 8232) || (c =? 8233) || (c =? 8239) || (c =? 8287)
  || (c =? 12288) || (c =? 65279).

Fixpoint trimStart (s : jsstring) : jsstring :=
  match s with
  | [] => []
  | c :: s' => if is_white c then trimStart s' else s
  end.

Fixpoint trimEnd (s : jsstring) : jsstring :=
  match s with
  | [] => []
  | c :: s' =>
      match trimEnd s' with
      | [] => if is_white c then [] else [c]
      | t => c :: t
      end
  end.

(** [s.trim()] *)
Definition trim (s : jsstring) : jsstring := trimEnd (trimStart s).

(** Truthiness of a value that is a string or [undefined] ([None]): only
    [undefined] and the empty string are falsy. *)
Definition truthy (o : option jsstring) : bool :=
  match o with
  | Some (_ :: _) => true
  | _ => false
  end.

(** A value used as a property key or interpolated in a template literal:
    [undefined] becomes the string ["undefined"]. *)
Definition to_key (o : option jsstring) : jsstring :=
  match o with
  | Some s => s
  | None => str "undefined"
  end.

(** ** Ordered objects *)

(** The own enumerable string-keyed properties of an ordinary object, in
    [OrdinaryOwnPropertyKeys] order. *)
Abbreviation obj V := (list (list N * V)) (only parsing).

Module Obj.

Definition digit (c : N) : option N :=
  if (48 <=? c) && (c <=? 57) then Some (c - 48) else None.

Fixpoint decimal (acc : N) (s : jsstring) : option N :=
  match s with
  | [] => Some acc
  | c :: s' =>
      match digit c with
      | Some d => decimal (10 * acc + d) s'
      | None => None
      end
  end.

(** A key is an array index when it is the canonical decimal form of an
    integer in [0, 2^32 - 2]. *)
Definition array_index (k : jsstring) : option N :=
  match k with
  | [] => None
  | [c] => digit c
  | c :: _ =>
      if c =? 48 then None
      else match decimal 0 k with
           | Some n => if n <? 4294967295 then Some n else None
           | None => None
           end
  end.

Section Ops.
Context {V : Type}.

(** [o[k]] on own properties *)
Fixpoint get (k : jsstring) (o : obj V) : option V :=
  match o with
  | [] => None
  | (k', v) :: o' => if decide (k' = k) then Some v else get k o'
  end.

(** Overwrite the value of an existing property, keeping its place. *)
Fixpoint replace (k : jsstring) (v : V) (o : obj V) : obj V :=
  match o with
  | [] => []
  | (k', v') :: o' =>
      if decide (k' = k) then (k, v) :: o' else (k', v') :: replace k v o'
  end.

(** Create array-index property [k] (of index [n]): it goes before the
    first property that is not an array index or has a larger index. *)
Fixpoint add_index (n : N) (k : jsstring) (v : V) (o : obj V) : obj V :=
  match o with
  | [] => [(k, v)]
  | (k', v') :: o' =>
      match array_index k' with
      | Some n' =>
          if n' <? n then (k', v') :: add_index n k v o'
          else (k, v) :: o
      | None => (k, v) :: o
      end
  end.

(** [o[k] = v] *)
Definition set (k : jsstring) (v : V) (o : obj V) : obj V :=
  match get k o with
  | Some _ => replace k v o
  | None =>
      match array_index k with
      | Some n => add_index n k v o
      | None => o ++ [(k, v)]
      end
  end.

(** [Object.entries(o)] and [Object.values(o)] *)
Definition entries (o : obj V) : list (jsstring * V) := o.
Definition values (o : obj V) : list V := snd <$> o.
Definition keys (o : obj V) : list jsstring := fst <$> o.

(** [{ ...src }] copied into [dst]: every own property of [src] is
    defined on [dst] in enumeration order; spreading [undefined] copies
    nothing. *)
Definition spread_into (dst : obj V) (src : option (obj V)) : obj V :=
  match src with
  | None => dst
  | Some o => foldl (λ acc kv, set kv.1 kv.2 acc) dst (entries o)
  end.

(** [k1] may be enumerated before [k2]: array indices come first, in
    ascending order; the other keys follow in creation order. *)
Definition precedes (k1 k2 : jsstring) : bool :=
  match array_index k1, array_index k2 with
  | Some n1, Some n2 => n1 <? n2
  | Some _, None => true
  | None, Some _ => false
  | None, None => true
  end.

(** The property list of an object as the engine holds it: no key twice,
    and the keys in enumeration order. *)
Fixpoint canonical (o : obj V) : bool :=
  match o with
  | [] => true
  | (k, _) :: o' =>
      forallb (λ kv, negb (bool_decide (k = kv.1)) && precedes k kv.1) o'
      && canonical o'
  end.

End Ops.

End Obj.

(** ** Values, exceptions, effects *)

(** A cell of a row.  Numeric cells are kept as integers: the code never
    computes with a cell, it only compares it with [undefined]. *)
Inductive jsval : Type :=
  | JUndefined
  | JNull
  | JBool (b : bool)
  | JNum (n : Z)
  | JStr (s : jsstring).

(** [v !== undefined] *)
Definition is_defined (v : jsval) : bool :=
  match v with
  | JUndefined => false
  | _ => true
  end.

(** [a[i]]: reading past the end of an array gives [undefined]. *)
Definition element (a : list jsval) (i : nat) : jsval :=
  default JUndefined (a !! i).

(** [o !== undefined] for the result of a property read *)
Definition present {A : Type} (o : option A) : bool :=
  match o with
  | Some _ => true
  | None => false
  end.

(** [new Error(message)] is what the specification calls NotFoundError;
    [TypeError] is raised by the engine ([Object.values(undefined)]). *)
Inductive exn : Type :=
  | Error (message : jsstring)
  | TypeError.

(** The payload of a [SCHEMA_UPDATED] event:
    [{ sheet, oldVersion, newVersion, change: { added } }]. *)
Record SchemaUpdated : Type := {
  ev_sheet : jsstring;
  ev_oldVersion : option jsstring;
  ev_newVersion : jsstring;
  ev_added : jsstring
}.

Inductive effect : Type :=
  | ConsoleLog (line : jsstring)
  | Emit (event : jsstring) (payload : SchemaUpdated).

(** ** The service object and its monad *)

(** A schema: [{ field: 'Header label', ... }]. *)
Abbreviation schema := (list (list N * list N)) (only parsing).

Record Service : Type := {
  schemas : gmap jsstring (gmap jsstring schema);
  currentVersions : gmap jsstring jsstring
}.

Inductive completion (A : Type) : Type :=
  | Return (a : A)
  | Throw (e : exn).
Arguments Return {A} a.
Arguments Throw {A} e.

Record run (A : Type) : Type := Run {
  outcome : completion A;
  final : Service;
  trace : list effect
}.
Arguments Run {A} _ _ _.
Arguments outcome {A} _.
Arguments final {A} _.
Arguments trace {A} _.

Definition M (A : Type) : Type := Service → run A.

#[export] Instance M_ret : MRet M := λ A a this, Run (Return a) this [].

#[export] Instance M_bind : MBind M := λ A B k m this,
  let r := m this in
  match outcome r with
  | Return a =>
      let r' := k a (final r) in
      Run (outcome r') (final r') (trace r ++ trace r')
  | Throw e => Run (Throw e) (final r) (trace r)
  end.

Definition throw {A : Type} (e : exn) : M A := λ this, Run (Throw e) this [].
Definition read_this : M Service := λ this, Run (Return this) this [].
Definition write_this (this' : Service) : M unit := λ _, Run (Return ()) this' [].
Definition perform (e : effect) : M unit := λ this, Run (Return ()) this [e].

(** [a.forEach((x, i) => ...)] with the state the callback updates threaded
    through. *)
Fixpoint forEach_from {A St : Type} (f : St → A → nat → St)
    (i : nat) (a : list A) (s : St) : St :=
  match a with
  | [] => s
  | x :: a' => forEach_from f (S i) a' (f s x i)
  end.

Definition forEach {A St : Type} (f : St → A → nat → St)
    (a : list A) (s : St) : St :=
  forEach_from f 0 a s.

(** ** Plain objects read and written by key

    The own property names of [Object.prototype]: every plain object ([{}],
    an object literal, the result of a spread) inherits them. *)
Definition Object_prototype_names : list (list N) :=
  str <$> ["constructor"; "__defineGetter__"; "__defineSetter__";
           "hasOwnProperty"; "__lookupGetter__"; "__lookupSetter__";
           "isPrototypeOf"; "propertyIsEnumerable"; "toString"; "valueOf";
           "__proto__"; "toLocaleString"]%string.

(** A property name that no plain object inherits. *)
Definition plain_name (key : jsstring) : Prop := key ∉ Object_prototype_names.

(** What [obj[key]] gives on a plain object with the own properties [o]: an
    own property, else the member of [Object.prototype] of that name (a
    built-in function, or for ["__proto__"] the prototype object), else
    [undefined]. *)
Inductive property (V : Type) : Type :=
  | Own (v : V)
  | Inherited (name : jsstring)
  | Absent.
Arguments Own {V} v.
Arguments Inherited {V} name.
Arguments Absent {V}.

Definition read {V : Type} (o : gmap jsstring V) (key : jsstring) : property V :=
  match o !! key with
  | Some v => Own v
  | None =>
      if bool_decide (key ∈ Object_prototype_names) then Inherited key else Absent
  end.

(** Truthiness of [obj[key]] on a plain object whose own values are
    objects: an own property is truthy, and so is an inherited member (a
    function or an object). *)
Definition has_member {V : Type} (o : gmap jsstring V) (key : jsstring) : bool :=
  match read o key with
  | Absent => false
  | _ => true
  end.

(** Truthiness of a property whose own values are strings: an inherited
    member is a function or an object, which is truthy. *)
Definition truthy_property (p : property jsstring) : bool :=
  match p with
  | Own s => truthy (Some s)
  | Inherited _ => true
  | Absent => false
  end.

(** The string an inherited member becomes when it is used as a property
    key: [Object.prototype] itself gives ["[object Object]"], a built-in
    function its source text as the engine renders it (V8). *)
Definition member_string (name : jsstring) : jsstring :=
  if decide (name = str "__proto__") then str "[object Object]"
  else str "function "
       ++ (if decide (name = str "constructor") then str "Object" else name)
       ++ str "() { [native code] }".

Definition property_key (p : property jsstring) : jsstring :=
  match p with
  | Own s => s
  | Inherited name => member_string name
  | Absent => str "undefined"
  end.

(** An object that starts as [{}] and is assigned cells of a row: its own
    properties, and whether its prototype has been set to [null]. *)
Record row_object : Type := {
  properties : gmap jsstring jsval;
  null_prototype : bool
}.

(** [{}] *)
Definition empty_object : row_object :=
  {| properties := ∅; null_prototype := false |}.

(** [obj[key] = v].  Under ["__proto__"], unless the object has that own
    property or no prototype, the inherited setter runs: it sets the
    prototype when [v] is [null] and ignores any other cell. *)
Definition assign (key : jsstring) (v : jsval) (o : row_object) : row_object :=
  if bool_decide (key = str "__proto__")
     && negb (null_prototype o) && negb (present (properties o !! key))
  then match v with
       | JNull => {| properties := properties o; null_prototype := true |}
       | _ => o
       end
  else {| properties := <[key := v]> (properties o);
          null_prototype := null_prototype o |}.

(** ** SchemaService *)

(** The startup configuration ([CONFIG]) is defined outside this file; the
    service reads three sheet names ([CONFIG.SHEET_NAME],
    [CONFIG.OUTPUT.DAILY_SHEET], [CONFIG.OUTPUT.BEHAVIOR_SHEET]) and three
    version constants ([CONFIG.SCHEMA_VERSIONS.MetaLog], [.DailyReport],
    [.BehaviorScores]) from it, all strings. *)
Record Config : Type := {
  SHEET_NAME : jsstring;
  DAILY_SHEET : jsstring;
  BEHAVIOR_SHEET : jsstring;
  MetaLog : jsstring;
  DailyReport : jsstring;
  BehaviorScores : jsstring
}.

Definition metaLog_v1 : schema := [
  (str "timestamp", str "Timestamp");
  (str "behaviors", [20170; 22825; 23436; 25104; 20102; 21738; 20123; 65311]);
    (* 今天完成了哪些？ *)
  (str "sleepStart", [26152; 26202; 23526; 38555; 20837; 30561; 26178; 38291]);
    (* 昨晚實際入睡時間 *)
  (str "sleepEnd", [20170; 22825; 23526; 38555; 36215; 24202; 26178; 38291]);
    (* 今天實際起床時間 *)
  (str "sleepPlanned", [20170; 26202; 38928; 35336; 24190; 40670; 20837; 30561; 65311]);
    (* 今晚預計幾點入睡？ *)
  (str "sleepQuality", [26152; 26202; 30561; 30496; 21697; 36074; 22914; 20309; 65311]);
    (* 昨晚睡眠品質如何？ *)
  (str "mood", [20170; 26085; 25972; 39636; 24515; 24773; 24863; 21463]);
    (* 今日整體心情感受 *)
  (str "energy", [20170; 26085; 25972; 39636; 31934; 21147; 27700; 24179; 22914; 20309; 65311]);
    (* 今日整體精力水平如何？ *)
  (str "note", [20170; 22825; 24819; 35352; 40670; 20160; 40636; 65311]);
    (* 今天想記點什麼？ *)
  (str "weight", [39636; 37325; 32000; 37636]);
    (* 體重紀錄 *)
  (str "screenTime", [20170; 26085; 25163; 27231; 34722; 24149; 20351; 29992; 26178; 38291]);
    (* 今日手機螢幕使用時間 *)
  (str "topApps", [20170; 26085; 20351; 29992; 26368; 22810; 30340; 32; 65; 112; 112])
    (* 今日使用最多的 App *)
].

Definition dailyReport_v1 : schema := [
  (str "timestamp", str "Report Generated");
  (str "date", str "Date");
  (str "analysis", str "AI Analysis");
  (str "behaviorTotal", str "Behavior Total");
  (str "behaviorPositive", str "Behavior Positive");
  (str "behaviorNegative", str "Behavior Negative");
  (str "behaviorRaw", str "Behavior Raw");
  (str "behaviorGoal", str "Behavior Goal");
  (str "sleepTotal", str "Sleep Total");
  (str "sleepDuration", str "Sleep Duration");
  (str "sleepQuality", str "Sleep Quality");
  (str "sleepRegularity", str "Sleep Regularity");
  (str "behaviorScoreVersion", str "Behavior Score Version");
  (str "sleepScoreVersion", str "Sleep Score Version")
].

Definition behaviorScores_v1 : schema := [
  (str "behavior", str "Behavior");
  (str "score", str "Score");
  (str "category", str "Category");
  (str "lastUpdated", str "Last Updated")
].

(** The object literal [SchemaService = { schemas: {...}, currentVersions:
    {...}, ... }]: computed keys are defined in source order, a repeated key
    keeps the last value. *)
Definition SchemaService (CONFIG : Config) : Service := {|
  schemas :=
    <[BEHAVIOR_SHEET CONFIG := {[str "v1" := behaviorScores_v1]}]>
      (<[DAILY_SHEET CONFIG := {[str "v1" := dailyReport_v1]}]>
        (<[SHEET_NAME CONFIG := {[str "v1" := metaLog_v1]}]> ∅));
  currentVersions :=
    <[BEHAVIOR_SHEET CONFIG := BehaviorScores CONFIG]>
      (<[DAILY_SHEET CONFIG := DailyReport CONFIG]>
        (<[SHEET_NAME CONFIG := MetaLog CONFIG]> ∅))
|}.

Record SchemaDiff : Type := {
  missing : list jsstring;
  extra : list jsstring;
  hasChanges : bool
}.

Section Methods.

(** [typeof EventBus !== 'undefined'] *)
Variable EventBus_defined : bool.

Definition getSchema (sheetName : jsstring) : M (option schema) :=
  this ← read_this;
  let version := currentVersions this !! sheetName in
  if negb (truthy version) || negb (present (schemas this !! sheetName))
  then throw (Error (str "Schema not found for sheet: " ++ sheetName))
  else
    match schemas this !! sheetName with
    | Some versions => mret (versions !! to_key version)
    | None => throw TypeError
    end.

(** The own properties of [reverse].  [reverse[header] = field] assigns a
    string: under ["__proto__"] the inherited setter ignores it and no
    property is created. *)
Definition _getReverseSchema (schema : option schema) : gmap jsstring jsstring :=
  match schema with
  | None => ∅
  | Some o =>
      foldl (λ reverse '(field, header),
               if bool_decide (header = str "__proto__") then reverse
               else <[header := field]> reverse)
        ∅ (Obj.entries o)
  end.

(** The callback [(header, index) => { ... }] of [mapRowToObject], with
    the [mappedData] it assigns to made explicit. *)
Definition mapRowToObject_each (reverseSchema : gmap jsstring jsstring)
    (rowData : list jsval) (mappedData : row_object)
    (header : jsstring) (index : nat) : row_object :=
  let fieldName := read reverseSchema (trim header) in
  if truthy_property fieldName && is_defined (element rowData index)
  then assign (property_key fieldName) (element rowData index) mappedData
  else mappedData.

(** The result is the mapped row by its own properties. *)
Definition mapRowToObject (sheetName : jsstring)
    (headers : list jsstring) (rowData : list jsval) : M (gmap jsstring jsval) :=
  schema ← getSchema sheetName;
  let reverseSchema := _getReverseSchema schema in
  mret (properties
          (forEach (mapRowToObject_each reverseSchema rowData) headers
             empty_object)).

Definition getHeaders (sheetName : jsstring) : M (list jsstring) :=
  schema ← getSchema sheetName;
  match schema with
  | Some o => mret (Obj.values o)
  | None => throw TypeError
  end.

Definition detectSchemaChanges (sheetName : jsstring)
    (actualHeaders : list jsstring) : M SchemaDiff :=
  expectedHeaders ← getHeaders sheetName;
  let actualSet : gset jsstring := list_to_set (trim <$> actualHeaders) in
  let expectedSet : gset jsstring := list_to_set expectedHeaders in
  mret {|
    missing := filter (λ h, h ∉ actualSet) expectedHeaders;
    extra := filter (λ h, trim h ∉ expectedSet) actualHeaders;
    hasChanges :=
      bool_decide (size actualSet ≠ size expectedSet)
      || existsb (λ h, bool_decide (h ∉ expectedSet)) (elements actualSet)
  |}.

Definition addField (sheetName fieldName headerName newVersion : jsstring) : M unit :=
  this ← read_this;
  match schemas this !! sheetName with
  | None => throw (Error (str "Sheet schema not found: " ++ sheetName))
  | Some versions =>
      let currentVersion := currentVersions this !! sheetName in
      let currentSchema := versions !! to_key currentVersion in
      let forked := Obj.set fieldName headerName (Obj.spread_into [] currentSchema) in
      write_this {|
        schemas := <[sheetName := <[newVersion := forked]> versions]> (schemas this);
        currentVersions := currentVersions this
      |};;
      perform (ConsoleLog
        (str "[SchemaService] Added field '" ++ fieldName ++ str "' to "
         ++ sheetName ++ str " schema version " ++ newVersion));;
      if EventBus_defined
      then perform (Emit (str "SCHEMA_UPDATED") {|
             ev_sheet := sheetName;
             ev_oldVersion := currentVersion;
             ev_newVersion := newVersion;
             ev_added := fieldName
           |})
      else mret ()
  end.

Definition setVersion (sheetName version : jsstring) : M unit :=
  this ← read_this;
  if negb (present (schemas this !! sheetName))
     || negb (from_option (λ versions, has_member versions version) false
                (schemas this !! sheetName))
  then throw (Error (str "Schema version " ++ version
                     ++ str " not found for sheet: " ++ sheetName))
  else
    let oldVersion := currentVersions this !! sheetName in
    write_this {|
      schemas := schemas this;
      currentVersions := <[sheetName := version]> (currentVersions this)
    |};;
    perform (ConsoleLog
      (str "[SchemaService] Updated " ++ sheetName ++ str " schema from "
       ++ to_key oldVersion ++ str " to " ++ version)).

End Methods.

(** * Specification vocabulary *)

Ltac run_method :=
  unfold mbind, M_bind, mret, M_ret, throw, read_this, write_this, perform;
  cbn [outcome final trace].

(** The guard of [setVersion] lets the call through. *)
Definition switches (this : Service) (sheetName version : jsstring) : bool :=
  from_option (λ versions, has_member versions version) false
    (schemas this !! sheetName).

(** The specification's NotFoundError: an [Error] thrown by the service. *)
Definition NotFoundError {A : Type} (c : completion A) : Prop :=
  ∃ message, c = Throw (Error message).

(** The sheet has an active version the service can resolve: a non-empty
    pointer (the empty string is falsy, [getSchema] treats it as no pointer). *)
Definition active_version (this : Service) (sheetName v : jsstring) : Prop :=
  currentVersions this !! sheetName = Some v ∧ v ≠ [].

(** [activeVersion(table) ∈ versions(table)] for one sheet. *)
Definition active_version_exists (this : Service) (sheetName : jsstring) : Prop :=
  ∃ v versions,
    currentVersions this !! sheetName = Some v
    ∧ schemas this !! sheetName = Some versions
    ∧ is_Some (versions !! v).

(** [field] is the field the reverse lookup gives for [header]: the last
    field of the schema, in enumeration order, whose header label is
    [header], compared as it is. *)
Definition field_of_label (o : schema) (header field : jsstring) : Prop :=
  ∃ before after,
    o = before ++ (field, header) :: after ∧ header ∉ Obj.values after.

(** Position [i] of the sheet gives [field] the value [v]: the trimmed
    header at [i] is the label of [field], [field] is not the empty string,
    and the row has a value at [i], which is [v]. *)
Definition assigns (o : schema) (headers : list jsstring) (rowData : list jsval)
    (i : nat) (field : jsstring) (v : jsval) : Prop :=
  ∃ header,
    headers !! i = Some header
    ∧ field_of_label o (trim header) field
    ∧ field ≠ []
    ∧ element rowData i = v
    ∧ v ≠ JUndefined.

(** The same for every sheet the service mentions, in [schemas] or in
    [currentVersions]. *)
Definition registry_invariant (this : Service) : Prop :=
  ∀ sheetName,
    is_Some (schemas this !! sheetName) ∨ is_Some (currentVersions this !! sheetName) →
    active_version_exists this sheetName.


(** Every schema the registry stores is a canonical object. *)
Definition schemas_canonical (this : Service) : Prop :=
  ∀ sheetName versions v o,
    schemas this !! sheetName = Some versions →
    versions !! v = Some o →
    Obj.canonical o = true.

(** ** Example services

    One sheet ["T"] whose version ["v1"] is [{ f1: 'h1', f2: 'h2' }]. *)

Module Ex.

Definition T : jsstring := str "T".
Definition v1 : jsstring := str "v1".
Definition v2 : jsstring := str "v2".
Definition f1 : jsstring := str "f1".
Definition f2 : jsstring := str "f2".
Definition f3 : jsstring := str "f3".
Definition h1 : jsstring := str "h1".
Definition h2 : jsstring := str "h2".
Definition h3 : jsstring := str "h3".

Definition two_fields : schema := [(f1, h1); (f2, h2)].

Definition service : Service := {|
  schemas := {[ T := {[ v1 := two_fields ]} ]};
  currentVersions := {[ T := v1 ]}
|}.

(** The pointer of ["T"] names a version that was never created. *)
Definition dangling : Service := {|
  schemas := {[ T := {[ v1 := two_fields ]} ]};
  currentVersions := {[ T := v2 ]}
|}.

(** ["T"] after [addField("T", "f3", "h3", "")]: a version whose
    identifier is the empty string. *)
Definition with_empty_version : Service :=
  final (addField false T f3 h3 [] service).

(** A schema whose first header label carries surrounding whitespace:
    [{ f1: ' h1 ', f2: 'h2' }]. *)
Definition padded : Service := {|
  schemas := {[ T := {[ v1 := [(f1, str " h1 "); (f2, h2)] ]} ]};
  currentVersions := {[ T := v1 ]}
|}.

(** A schema whose only field is named by the empty string:
    [{ '': 'h1' }]. *)
Definition unnamed : Service := {|
  schemas := {[ T := {[ v1 := [([], h1)] ]} ]};
  currentVersions := {[ T := v1 ]}
|}.

End Ex.

(** ** Schemas and headers free of inherited names *)

(** A schema with no field and no header label named ["__proto__"]: the
    assignments [reverse[header] = field] and [mappedData[fieldName] = ...]
    then create or overwrite an own property. *)
Definition plain_schema (o : schema) : Prop :=
  (str "__proto__" ∉ Obj.keys o) ∧ (str "__proto__" ∉ Obj.values o).

(** Actual headers that the reverse lookup of schema [o] resolves by own
    properties: the trimmed header is a label of [o], or it is a name that
    the lookup object does not inherit. *)
Definition decodable (o : schema) (headers : list jsstring) : Prop :=
  ∀ header, header ∈ headers →
    trim header ∈ Obj.values o ∨ plain_name (trim header).

(** ** Callers *)

(** The pointer of the sheet names a version its version table lacks. *)
Definition dangling_pointer (this : Service) (sheetName : jsstring) : Prop :=
  ∃ v versions,
    active_version this sheetName v
    ∧ schemas this !! sheetName = Some versions
    ∧ versions !! v = None.

(** One call of a mutator, and a caller that issues a list of them in turn,
    going on after a call that throws. *)
Inductive call : Type :=
  | AddField (sheetName fieldName headerName newVersion : list N)
  | SetVersion (sheetName version : list N).

Definition perform_call (bus : bool) (c : call) : M unit :=
  match c with
  | AddField sheetName fieldName headerName newVersion =>
      addField bus sheetName fieldName headerName newVersion
  | SetVersion sheetName version => setVersion sheetName version
  end.

Definition after_calls (bus : bool) (calls : list call) (this : Service) : Service :=
  foldl (λ st c, final (perform_call bus c st)) this calls.

(** A call whose sheet and version identifiers are names that no plain
    object inherits. *)
Definition plain_call (c : call) : Prop :=
  match c with
  | AddField sheetName _ _ newVersion => plain_name sheetName ∧ plain_name newVersion
  | SetVersion sheetName version => plain_name sheetName ∧ plain_name version
  end.

(** A configuration with three distinct sheet names and every version
    constant ["v1"], and the registry the object literal builds from it. *)
Definition example_config : Config := {|
  SHEET_NAME := str "MetaLog";
  DAILY_SHEET := str "DailyReport";
  BEHAVIOR_SHEET := str "BehaviorScores";
  MetaLog := str "v1";
  DailyReport := str "v1";
  BehaviorScores := str "v1"
|}.

Definition example_registry : Service := SchemaService example_config.
(** * Properties *)

(** ** Ordered objects *)

Section ObjFacts.
Context {V : Type}.
Implicit Types (k : list N) (v : V) (o : list (list N * V)).

Lemma Obj_get_Some_elem k v o : Obj.get k o = Some v → (k, v) ∈ o.
Proof.
  induction o as [|[k' v'] o IH]; cbn; [done|].
  destruct (decide (k' = k)) as [->|Hne].
  - intros [= ->]. apply list_elem_of_here.
  - intros H. apply list_elem_of_further. by apply IH.
Qed.

Lemma Obj_get_None_keys k o : Obj.get k o = None ↔ k ∉ Obj.keys o.
Proof.
  unfold Obj.keys. induction o as [|[k' v'] o IH]; cbn.
  - split; [intros _; apply not_elem_of_nil | done].
  - rewrite not_elem_of_cons. destruct (decide (k' = k)) as [->|Hne].
    + split; [done | by intros [? _]].
    + rewrite IH. split; [by intros ? | by intros [_ ?]].
Qed.

Lemma Obj_get_replace k v o k' :
  Obj.get k' (Obj.replace k v o) =
    if decide (k = k') then (λ _, v) <$> Obj.get k o else Obj.get k' o.
Proof.
  induction o as [|[k0 v0] o IH]; cbn.
  - by case_decide.
  - repeat (case_decide; cbn; simplify_eq); done.
Qed.

Lemma Obj_get_add_index n k v o k' :
  Obj.get k o = None →
  Obj.get k' (Obj.add_index n k v o) =
    if decide (k = k') then Some v else Obj.get k' o.
Proof.
  induction o as [|[k0 v0] o IH]; cbn.
  - done.
  - destruct (decide (k0 = k)) as [->|Hne]; [done|]. intros Hget.
    destruct (Obj.array_index k0) as [n0|]; [destruct (n0 <? n)%N|]; cbn;
      repeat (case_decide; simplify_eq); try done.
    all: by rewrite IH.
Qed.

Lemma Obj_get_app k o1 o2 :
  Obj.get k (o1 ++ o2) =
    match Obj.get k o1 with
    | Some v => Some v
    | None => Obj.get k o2
    end.
Proof.
  induction o1 as [|[k0 v0] o1 IH]; cbn; [done|].
  by destruct (decide (k0 = k)).
Qed.

(** Reading after [o[k] = v]. *)
Lemma Obj_get_set k v o k' :
  Obj.get k' (Obj.set k v o) =
    if decide (k = k') then Some v else Obj.get k' o.
Proof.
  unfold Obj.set. destruct (Obj.get k o) as [v0|] eqn:Hget.
  - rewrite Obj_get_replace, Hget. by destruct (decide (k = k')).
  - destruct (Obj.array_index k) as [n|].
    + by apply Obj_get_add_index.
    + rewrite Obj_get_app. cbn.
      destruct (decide (k = k')) as [->|Hne].
      * by rewrite Hget.
      * by destruct (Obj.get k' o).
Qed.

Lemma Obj_get_set_eq k v o : Obj.get k (Obj.set k v o) = Some v.
Proof. rewrite Obj_get_set. by rewrite decide_True. Qed.

Lemma Obj_elem_of_set k v o : (k, v) ∈ Obj.set k v o.
Proof. apply Obj_get_Some_elem, Obj_get_set_eq. Qed.

Lemma Obj_values_set k v o : v ∈ Obj.values (Obj.set k v o).
Proof.
  unfold Obj.values. apply list_elem_of_fmap.
  exists (k, v). split; [done | apply Obj_elem_of_set].
Qed.

Lemma Obj_canonical_app_l o1 o2 :
  Obj.canonical (o1 ++ o2) = true → Obj.canonical o1 = true.
Proof.
  induction o1 as [|[k v] o1 IH]; cbn; [done|].
  rewrite !andb_true_iff, forallb_app, andb_true_iff.
  intros [[H1 _] H2]. split; [done | by apply IH].
Qed.

Lemma Obj_canonical_snoc k v o :
  Obj.canonical (o ++ [(k, v)]) = true →
  Forall (λ kv, kv.1 ≠ k ∧ Obj.precedes kv.1 k = true) o.
Proof.
  induction o as [|[k0 v0] o IH]; cbn; [by constructor|].
  rewrite !andb_true_iff, forallb_app, andb_true_iff. cbn.
  rewrite !andb_true_iff, negb_true_iff, bool_decide_eq_false.
  intros [[_ [[Hne Hprec] _]] Hcan]. constructor; [done | by apply IH].
Qed.

Lemma Obj_add_index_last n k v o :
  Forall (λ kv, ∃ n', Obj.array_index kv.1 = Some n' ∧ (n' <? n)%N = true) o →
  Obj.add_index n k v o = o ++ [(k, v)].
Proof.
  induction 1 as [|[k0 v0] o (n' & Hidx & Hlt) _ IH]; cbn; [done|].
  cbn in Hidx. by rewrite Hidx, Hlt, IH.
Qed.

(** Defining a property that belongs last in enumeration order appends it. *)
Lemma Obj_set_last k v o :
  Obj.canonical (o ++ [(k, v)]) = true → Obj.set k v o = o ++ [(k, v)].
Proof.
  intros Hcan%Obj_canonical_snoc. unfold Obj.set.
  assert (Hfresh : Obj.get k o = None).
  { apply Obj_get_None_keys. unfold Obj.keys. rewrite list_elem_of_fmap.
    intros ([k0 v0] & -> & Hin).
    rewrite Forall_forall in Hcan. by destruct (Hcan _ Hin). }
  rewrite Hfresh. destruct (Obj.array_index k) as [n|] eqn:Hidx; [|done].
  apply Obj_add_index_last. eapply Forall_impl; [exact Hcan|].
  intros [k0 v0] [_ Hprec]. cbn in *. unfold Obj.precedes in Hprec.
  rewrite Hidx in Hprec. destruct (Obj.array_index k0) as [n0|]; [|done].
  by exists n0.
Qed.

(** Spreading an object into a fresh one copies it: same properties, same
    order. *)
Lemma Obj_spread_copy o :
  Obj.canonical o = true → Obj.spread_into [] (Some o) = o.
Proof.
  unfold Obj.spread_into, Obj.entries.
  induction o as [|[k v] o IH] using rev_ind; [done|].
  intros Hcan. rewrite foldl_snoc. cbn.
  rewrite IH by (by eapply Obj_canonical_app_l).
  by apply Obj_set_last.
Qed.

End ObjFacts.

(** ** Trimming *)

Lemma trimStart_shape (s : jsstring) :
  trimStart s = [] ∨ ∃ c s', trimStart s = c :: s' ∧ is_white c = false.
Proof.
  induction s as [|c s IH]; cbn; [by left|].
  destruct (is_white c) eqn:Hc; [done|]. right. by exists c, s.
Qed.

Lemma trimEnd_cons_nonwhite (c : N) (s : jsstring) :
  is_white c = false → trimEnd (c :: s) = c :: trimEnd s.
Proof. intros Hc. cbn. rewrite Hc. by destruct (trimEnd s). Qed.

Lemma trimEnd_idemp (s : jsstring) : trimEnd (trimEnd s) = trimEnd s.
Proof.
  induction s as [|c s IH]; cbn; [done|].
  destruct (trimEnd s) as [|c' t] eqn:Ht.
  - destruct (is_white c) eqn:Hc; cbn; [done|]. by rewrite Hc.
  - change (trimEnd (c :: c' :: t) = c :: c' :: t). cbn. cbn in IH. by rewrite IH.
Qed.

(** [s.trim().trim() === s.trim()] *)
Lemma trim_idemp (s : jsstring) : trim (trim s) = trim s.
Proof.
  unfold trim. destruct (trimStart_shape s) as [-> | (c & s' & -> & Hc)]; [done|].
  rewrite trimEnd_cons_nonwhite by done. cbn [trimStart]. rewrite Hc.
  rewrite trimEnd_cons_nonwhite by done. by rewrite trimEnd_idemp.
Qed.

(** ** Array-index keys and canonical objects *)

Lemma digit_Some (c d : N) :
  Obj.digit c = Some d ↔ (48 ≤ c ∧ c ≤ 57 ∧ d = c - 48)%N.
Proof.
  unfold Obj.digit.
  destruct (48 <=? c)%N eqn:Hlo; destruct (c <=? 57)%N eqn:Hhi;
    cbn; rewrite ?N.leb_le, ?N.leb_gt in *; split; try done; try lia.
  - intros [= <-]. lia.
  - intros (_ & _ & ->). done.
Qed.

Lemma decimal_snoc (acc : N) (k : jsstring) (c : N) :
  Obj.decimal acc (k ++ [c]) =
    match Obj.decimal acc k with
    | Some a =>
        match Obj.digit c with
        | Some d => Some (10 * a + d)%N
        | None => None
        end
    | None => None
    end.
Proof.
  revert acc. induction k as [|c0 k IH]; intros acc; cbn.
  - by destruct (Obj.digit c).
  - destruct (Obj.digit c0); [apply IH | done].
Qed.

Lemma decimal_ge (acc : N) (k : jsstring) (n : N) :
  Obj.decimal acc k = Some n → (acc ≤ n)%N.
Proof.
  revert acc. induction k as [|c k IH]; intros acc; cbn.
  - intros [= <-]. lia.
  - destruct (Obj.digit c) as [d|]; [|done]. intros H%IH. lia.
Qed.

Lemma decimal_zero (k : jsstring) :
  head k ≠ Some 48%N → Obj.decimal 0 k = Some 0%N → k = [].
Proof.
  destruct k as [|c k]; [done|]. cbn. intros Hhead.
  destruct (Obj.digit c) as [d|] eqn:Hd; [|done].
  intros Hge%decimal_ge. apply digit_Some in Hd as (? & ? & ->).
  destruct Hhead. f_equal. lia.
Qed.

(** A number has one decimal form without leading zero. *)
Lemma decimal_inj (k1 k2 : jsstring) (n : N) :
  head k1 ≠ Some 48%N → head k2 ≠ Some 48%N →
  Obj.decimal 0 k1 = Some n → Obj.decimal 0 k2 = Some n → k1 = k2.
Proof.
  revert k2 n. induction k1 as [|c1 k1 IH] using rev_ind; intros k2 n H1 H2 Hd1 Hd2.
  - cbn in Hd1. injection Hd1 as <-. symmetry. by apply decimal_zero.
  - destruct k2 as [|c2 k2 _] using rev_ind.
    + cbn in Hd2. injection Hd2 as <-. by apply decimal_zero.
    + rewrite decimal_snoc in Hd1, Hd2.
      destruct (Obj.decimal 0 k1) as [a1|] eqn:Ha1; [|done].
      destruct (Obj.decimal 0 k2) as [a2|] eqn:Ha2; [|done].
      destruct (Obj.digit c1) as [d1|] eqn:Hc1; [|done].
      destruct (Obj.digit c2) as [d2|] eqn:Hc2; [|done].
      injection Hd1 as <-. injection Hd2 as Heq.
      apply digit_Some in Hc1 as (? & ? & ->). apply digit_Some in Hc2 as (? & ? & ->).
      assert (a2 = a1) as -> by lia. assert (c2 = c1) as -> by lia.
      f_equal. apply (IH k2 a1); [| |done|done].
      * destruct k1; [done | exact H1].
      * destruct k2; [done | exact H2].
Qed.

Lemma array_index_cases (k : jsstring) (n : N) :
  Obj.array_index k = Some n →
  (k = [48%N] ∧ n = 0%N)
  ∨ (k ≠ [] ∧ head k ≠ Some 48%N ∧ Obj.decimal 0 k = Some n).
Proof.
  destruct k as [|c [|c2 k]]; [done| |].
  - cbn. intros Hd. destruct (decide (c = 48%N)) as [->|Hne].
    + left. split; [done|]. apply digit_Some in Hd as (_ & _ & ->). done.
    + right. split; [done|]. split; [congruence|]. by rewrite Hd.
  - unfold Obj.array_index. destruct (c =? 48)%N eqn:Hc; [done|].
    apply N.eqb_neq in Hc.
    destruct (Obj.decimal 0 (c :: c2 :: k)) as [m|] eqn:Hm; [|done].
    destruct (m <? 4294967295)%N; [|done]. intros [= <-].
    right. split; [done|]. split; [cbn; congruence | done].
Qed.

(** Distinct keys are distinct array indices. *)
Lemma array_index_inj (k1 k2 : jsstring) (n : N) :
  Obj.array_index k1 = Some n → Obj.array_index k2 = Some n → k1 = k2.
Proof.
  intros [[-> ->] | (Hne1 & Hh1 & Hd1)]%array_index_cases
         [[-> Hn] | (Hne2 & Hh2 & Hd2)]%array_index_cases.
  - done.
  - by apply decimal_zero in Hd2.
  - subst n. by apply decimal_zero in Hd1.
  - by eapply decimal_inj.
Qed.

Section Canonical.
Context {V : Type}.
Implicit Types (k : list N) (v : V) (o : list (list N * V)).

Lemma forallb_keys_replace (q : list N → bool) k v o :
  forallb (λ kv, q kv.1) (Obj.replace k v o) = forallb (λ kv, q kv.1) o.
Proof.
  induction o as [|[k0 v0] o IH]; cbn; [done|].
  destruct (decide (k0 = k)) as [->|Hne]; cbn; [done | by rewrite IH].
Qed.

Lemma canonical_replace k v o :
  Obj.canonical (Obj.replace k v o) = Obj.canonical o.
Proof.
  induction o as [|[k0 v0] o IH]; cbn; [done|].
  destruct (decide (k0 = k)) as [->|Hne]; cbn; [done|].
  pose proof (forallb_keys_replace
                (λ k', negb (bool_decide (k0 = k')) && Obj.precedes k0 k') k v o)
    as Hkeys.
  cbn beta in Hkeys. by rewrite IH, Hkeys.
Qed.

Lemma canonical_snoc_name k v o :
  Obj.get k o = None → Obj.array_index k = None →
  Obj.canonical o = true → Obj.canonical (o ++ [(k, v)]) = true.
Proof.
  intros Hfresh Hidx. induction o as [|[k0 v0] o IH]; cbn; [done|].
  cbn in Hfresh. destruct (decide (k0 = k)) as [|Hne]; [done|].
  rewrite !andb_true_iff, forallb_app, andb_true_iff. cbn.
  intros [Hall Hcan]. split; [|by apply IH]. split; [done|].
  rewrite bool_decide_eq_false_2 by done. unfold Obj.precedes. rewrite Hidx.
  by destruct (Obj.array_index k0).
Qed.

Lemma forallb_add_index (p : list N * V → bool) n k v o :
  forallb p (Obj.add_index n k v o) = p (k, v) && forallb p o.
Proof.
  induction o as [|[k0 v0] o IH]; cbn; [done|].
  destruct (Obj.array_index k0) as [n0|]; [destruct (n0 <? n)%N|]; cbn; [|done|done].
  rewrite IH. by destruct (p (k, v)), (p (k0, v0)).
Qed.

Lemma canonical_add_index n k v o :
  Obj.get k o = None → Obj.array_index k = Some n →
  Obj.canonical o = true → Obj.canonical (Obj.add_index n k v o) = true.
Proof.
  intros Hfresh Hidx. induction o as [|[k0 v0] o IH]; cbn; [done|].
  cbn in Hfresh. destruct (decide (k0 = k)) as [|Hne]; [done|].
  rewrite andb_true_iff. intros [Hall Hcan].
  assert (Hnew : ∀ n0, Obj.array_index k0 = Some n0 → (n0 <? n)%N = false →
                 Obj.precedes k k0 = true).
  { intros n0 Hn0 Hlt. unfold Obj.precedes. rewrite Hidx, Hn0.
    apply N.ltb_lt. apply N.ltb_ge in Hlt.
    assert (n0 ≠ n); [|lia]. intros ->. apply Hne. by eapply array_index_inj. }
  assert (Hrest : Obj.precedes k k0 = true →
                  forallb (λ kv, negb (bool_decide (k = kv.1)) && Obj.precedes k kv.1) o
                  = true).
  { intros Hk0. apply forallb_forall. intros [k' v'] Hin. cbn.
    rewrite forallb_forall in Hall. specialize (Hall _ Hin). cbn in Hall.
    apply andb_true_iff in Hall as [_ Hk']. apply andb_true_iff. split.
    - apply negb_true_iff, bool_decide_eq_false. intros <-.
      apply list_elem_of_In in Hin.
      assert (Hk : k ∈ Obj.keys o)
        by (unfold Obj.keys; apply list_elem_of_fmap; by exists (k, v')).
      by apply Obj_get_None_keys in Hfresh.
    - revert Hk0 Hk'. unfold Obj.precedes. rewrite Hidx.
      destruct (Obj.array_index k0) as [n0|], (Obj.array_index k') as [n'|];
        try done.
      rewrite !N.ltb_lt. lia. }
  assert (Hfront : Obj.precedes k k0 = true →
                   Obj.canonical ((k, v) :: (k0, v0) :: o) = true).
  { intros Hk0. cbn. rewrite Hall, Hcan, Hk0, Hrest by done.
    by rewrite bool_decide_eq_false_2 by done. }
  destruct (Obj.array_index k0) as [n0|] eqn:Hn0.
  - destruct (n0 <? n)%N eqn:Hlt.
    + cbn. rewrite forallb_add_index, Hall, IH by done. cbn.
      rewrite bool_decide_eq_false_2 by done. unfold Obj.precedes.
      by rewrite Hn0, Hidx, Hlt.
    + apply Hfront. by eapply Hnew.
  - apply Hfront. unfold Obj.precedes. by rewrite Hidx, Hn0.
Qed.

(** Every assignment keeps the property list canonical: the objects the
    code builds, from literals and by [o[k] = v], are canonical. *)
Lemma canonical_set k v o :
  Obj.canonical o = true → Obj.canonical (Obj.set k v o) = true.
Proof.
  intros Hcan. unfold Obj.set. destruct (Obj.get k o) as [v0|] eqn:Hget.
  - by rewrite canonical_replace.
  - destruct (Obj.array_index k) as [n|] eqn:Hidx.
    + by apply canonical_add_index.
    + by apply canonical_snoc_name.
Qed.

Lemma canonical_spread o' (src : option (list (list N * V))) :
  Obj.canonical o' = true → Obj.canonical (Obj.spread_into o' src) = true.
Proof.
  destruct src as [o|]; cbn; [|done]. unfold Obj.entries.
  revert o'. induction o as [|[k v] o IH]; intros o' Hcan; cbn; [done|].
  by apply IH, canonical_set.
Qed.

End Canonical.


(** ** Names that no plain object inherits *)

Lemma plain_name_not_proto (key : jsstring) :
  plain_name key → key ≠ str "__proto__".
Proof.
  intros Hplain ->. apply Hplain. unfold Object_prototype_names.
  apply (bool_decide_unpack _). by vm_compute.
Qed.

Lemma has_member_true {V : Type} (o : gmap (list N) V) (key : jsstring) :
  has_member o key = true ↔ is_Some (o !! key) ∨ key ∈ Object_prototype_names.
Proof.
  unfold has_member, read. destruct (o !! key) as [v|].
  - split; [left; by eexists | done].
  - case_bool_decide as Hin.
    + split; [by right | done].
    + split; [done | by intros [[? ?] | ?]].
Qed.

Lemma has_member_plain {V : Type} (o : gmap (list N) V) (key : jsstring) :
  plain_name key → has_member o key = true ↔ is_Some (o !! key).
Proof.
  intros Hplain. rewrite has_member_true. split; [|by left].
  by intros [? | ?].
Qed.

Lemma switches_own (this : Service) (sheetName version : jsstring)
    (versions : gmap (list N) (list (list N * list N))) :
  schemas this !! sheetName = Some versions →
  is_Some (versions !! version) →
  switches this sheetName version = true.
Proof.
  intros Hs Hin. unfold switches. rewrite Hs. cbn. apply has_member_true. by left.
Qed.

Lemma switches_plain (this : Service) (sheetName version : jsstring) :
  plain_name version →
  switches this sheetName version = true ↔
    ∃ versions, schemas this !! sheetName = Some versions
                ∧ is_Some (versions !! version).
Proof.
  intros Hplain. unfold switches.
  destruct (schemas this !! sheetName) as [versions|]; cbn.
  - rewrite has_member_plain by done. split; [by exists versions|].
    by intros (? & [= <-] & ?).
  - split; [done | by intros (? & ? & _)].
Qed.

Lemma decodable_Forall (o : list (list N * list N)) (headers : list jsstring) :
  Forall (λ header, trim header ∈ Obj.values o
                    ∨ trim header ∉ Object_prototype_names) headers →
  decodable o headers.
Proof. intros Hall header Hin. by apply (proj1 (Forall_forall _ _) Hall). Qed.

Lemma decodable_labels (o : list (list N * list N)) :
  (∀ label, label ∈ Obj.values o → trim label = label) →
  decodable o (Obj.values o).
Proof. intros Htrim header Hin. left. by rewrite Htrim. Qed.


(** ** What [o[k] = v] leaves of the other properties *)

Section ObjOthers.
Context {V : Type}.
Implicit Types (k : list N) (v : V) (o : list (list N * V)).

Lemma Obj_replace_others k v o :
  filter (λ kv, kv.1 ≠ k) (Obj.replace k v o) = filter (λ kv, kv.1 ≠ k) o.
Proof.
  induction o as [|[k0 v0] o IH]; [done|]. cbn [Obj.replace].
  destruct (decide (k0 = k)) as [->|Hne].
  - by rewrite !filter_cons_False by (cbn; intros Hk; by apply Hk).
  - by rewrite !filter_cons_True, IH by done.
Qed.

Lemma Obj_add_index_others n k v o :
  filter (λ kv, kv.1 ≠ k) (Obj.add_index n k v o) = filter (λ kv, kv.1 ≠ k) o.
Proof.
  induction o as [|[k0 v0] o IH]; cbn [Obj.add_index].
  - by rewrite filter_cons_False by (cbn; intros Hk; by apply Hk).
  - destruct (Obj.array_index k0) as [n0|]; [destruct (n0 <? n)%N|].
    + by rewrite !(filter_cons _ (k0, v0)), IH.
    + by rewrite (filter_cons_False _ (k, v)) by (cbn; intros Hk; by apply Hk).
    + by rewrite (filter_cons_False _ (k, v)) by (cbn; intros Hk; by apply Hk).
Qed.

(** The properties other than [k] keep their values and their order. *)
Lemma Obj_set_others k v o :
  filter (λ kv, kv.1 ≠ k) (Obj.set k v o) = filter (λ kv, kv.1 ≠ k) o.
Proof.
  unfold Obj.set. destruct (Obj.get k o) as [v0|].
  - apply Obj_replace_others.
  - destruct (Obj.array_index k) as [n|].
    + apply Obj_add_index_others.
    + rewrite filter_app, filter_cons_False by (cbn; intros Hk; by apply Hk).
      by rewrite filter_nil, app_nil_r.
Qed.

End ObjOthers.
(** ** What one call does: the run of each method, in closed form *)

Lemma truthy_Some (o : option jsstring) :
  truthy o = true ↔ ∃ v, o = Some v ∧ v ≠ [].
Proof.
  split.
  - destruct o as [[|c v]|]; try discriminate. intros _. by exists (c :: v).
  - intros (v & -> & Hv). by destruct v.
Qed.

Lemma truthy_false (o : option jsstring) :
  truthy o = false ↔ o = None ∨ o = Some [].
Proof.
  split.
  - destruct o as [[|c v]|]; try discriminate; auto.
  - by intros [-> | ->].
Qed.

Lemma getSchema_run (this : Service) (sheetName : jsstring) :
  getSchema sheetName this =
    Run (match schemas this !! sheetName with
         | Some versions =>
             if truthy (currentVersions this !! sheetName)
             then Return (versions !! to_key (currentVersions this !! sheetName))
             else Throw (Error (str "Schema not found for sheet: " ++ sheetName))
         | None => Throw (Error (str "Schema not found for sheet: " ++ sheetName))
         end) this [].
Proof.
  unfold getSchema. run_method.
  destruct (schemas this !! sheetName) as [versions|];
    destruct (truthy (currentVersions this !! sheetName)); reflexivity.
Qed.

Lemma getHeaders_run (this : Service) (sheetName : jsstring) :
  getHeaders sheetName this =
    Run (match outcome (getSchema sheetName this) with
         | Return (Some o) => Return (Obj.values o)
         | Return None => Throw TypeError
         | Throw e => Throw e
         end) this [].
Proof.
  unfold getHeaders. run_method. rewrite getSchema_run. cbn [outcome final trace].
  destruct (schemas this !! sheetName) as [versions|]; [|reflexivity].
  destruct (truthy (currentVersions this !! sheetName)); [|reflexivity].
  by destruct (versions !! to_key (currentVersions this !! sheetName)).
Qed.

Lemma setVersion_run (this : Service) (sheetName version : jsstring) :
  setVersion sheetName version this =
    if switches this sheetName version
    then
      Run (Return ())
        {| schemas := schemas this;
           currentVersions := <[sheetName := version]> (currentVersions this) |}
        [ConsoleLog
           (str "[SchemaService] Updated " ++ sheetName ++ str " schema from "
            ++ to_key (currentVersions this !! sheetName) ++ str " to " ++ version)]
    else
      Run (Throw (Error (str "Schema version " ++ version
                         ++ str " not found for sheet: " ++ sheetName))) this [].
Proof.
  unfold setVersion, switches. run_method.
  destruct (schemas this !! sheetName) as [versions|]; cbn; [|reflexivity].
  by destruct (has_member versions version).
Qed.

Lemma addField_final (bus : bool) (this : Service)
    (sheetName fieldName headerName newVersion : jsstring) :
  final (addField bus sheetName fieldName headerName newVersion this) =
    match schemas this !! sheetName with
    | Some versions =>
        {| schemas :=
             <[sheetName :=
                 <[newVersion :=
                     Obj.set fieldName headerName
                       (Obj.spread_into []
                          (versions !! to_key (currentVersions this !! sheetName)))]>
                   versions]> (schemas this);
           currentVersions := currentVersions this |}
    | None => this
    end.
Proof.
  unfold addField. run_method.
  destruct (schemas this !! sheetName) as [versions|]; [|reflexivity].
  by destruct bus.
Qed.

Lemma addField_outcome (bus : bool) (this : Service)
    (sheetName fieldName headerName newVersion : jsstring) :
  outcome (addField bus sheetName fieldName headerName newVersion this) =
    match schemas this !! sheetName with
    | Some _ => Return ()
    | None => Throw (Error (str "Sheet schema not found: " ++ sheetName))
    end.
Proof.
  unfold addField. run_method.
  destruct (schemas this !! sheetName) as [versions|]; [|reflexivity].
  by destruct bus.
Qed.

Lemma mapRowToObject_run (this : Service) (sheetName : jsstring)
    (headers : list jsstring) (rowData : list jsval) :
  mapRowToObject sheetName headers rowData this =
    Run (match outcome (getSchema sheetName this) with
         | Return schema =>
             Return (properties
                       (forEach (mapRowToObject_each (_getReverseSchema schema) rowData)
                          headers empty_object))
         | Throw e => Throw e
         end) this [].
Proof.
  unfold mapRowToObject. run_method. rewrite getSchema_run. cbn [outcome final trace].
  destruct (schemas this !! sheetName) as [versions|]; [|reflexivity].
  by destruct (truthy (currentVersions this !! sheetName)).
Qed.

Lemma detectSchemaChanges_run (this : Service) (sheetName : jsstring)
    (actualHeaders : list jsstring) :
  detectSchemaChanges sheetName actualHeaders this =
    Run (match outcome (getHeaders sheetName this) with
         | Return expectedHeaders =>
             let actualSet : gset jsstring := list_to_set (trim <$> actualHeaders) in
             let expectedSet : gset jsstring := list_to_set expectedHeaders in
             Return {|
               missing := filter (λ h, h ∉ actualSet) expectedHeaders;
               extra := filter (λ h, trim h ∉ expectedSet) actualHeaders;
               hasChanges :=
                 bool_decide (size actualSet ≠ size expectedSet)
                 || existsb (λ h, bool_decide (h ∉ expectedSet)) (elements actualSet)
             |}
         | Throw e => Throw e
         end) this [].
Proof.
  unfold detectSchemaChanges. run_method. rewrite getHeaders_run.
  cbn [outcome final trace].
  by destruct (outcome (getSchema sheetName this)) as [[o|]|e].
Qed.

(** ** Reads *)

(** C10.  [getSchema], [getHeaders], [mapRowToObject] and
    [detectSchemaChanges] never modify the registry: whatever the state and
    the arguments, and whether the call returns or throws, the service
    object it leaves behind (every sheet's version table and every
    active-version pointer) is the one it started from; they log nothing and
    emit no event either. *)
Theorem reads_leave_registry_unchanged (this : Service) (sheetName : jsstring)
    (headers actualHeaders : list jsstring) (rowData : list jsval) :
  (final (getSchema sheetName this) = this
   ∧ trace (getSchema sheetName this) = [])
  ∧ (final (getHeaders sheetName this) = this
     ∧ trace (getHeaders sheetName this) = [])
  ∧ (final (mapRowToObject sheetName headers rowData this) = this
     ∧ trace (mapRowToObject sheetName headers rowData this) = [])
  ∧ (final (detectSchemaChanges sheetName actualHeaders this) = this
     ∧ trace (detectSchemaChanges sheetName actualHeaders this) = []).
Proof.
  rewrite getSchema_run, getHeaders_run, mapRowToObject_run,
    detectSchemaChanges_run.
  repeat split.
Qed.

(** C5.  The code departs from the claim on a pointer that names a version
    the sheet does not have: the sheet ["T"] is known and its pointer ["v2"]
    is recorded, yet [getSchema("T")] throws no error and returns
    [undefined], which is no schema entry of the sheet; [getHeaders("T")]
    then throws a [TypeError]. *)
Lemma getSchema_returns_undefined_on_dangling_pointer :
  schemas Ex.dangling !! Ex.T = Some {[ Ex.v1 := Ex.two_fields ]}
  ∧ currentVersions Ex.dangling !! Ex.T = Some Ex.v2
  ∧ ({[ Ex.v1 := Ex.two_fields ]} : gmap (list N) (list (list N * list N))) !! Ex.v2
    = None
  ∧ outcome (getSchema Ex.T Ex.dangling) = Return None
  ∧ outcome (getHeaders Ex.T Ex.dangling) = Throw TypeError.
Proof. repeat split. Qed.

(** ** Switching and forking versions *)

Lemma setVersion_outcome (this : Service) (sheetName version : jsstring) :
  outcome (setVersion sheetName version this) =
    if switches this sheetName version
    then Return ()
    else Throw (Error (str "Schema version " ++ version
                       ++ str " not found for sheet: " ++ sheetName)).
Proof. rewrite setVersion_run. by destruct (switches this sheetName version). Qed.

Lemma setVersion_final (this : Service) (sheetName version : jsstring) :
  final (setVersion sheetName version this) =
    if switches this sheetName version
    then {| schemas := schemas this;
            currentVersions := <[sheetName := version]> (currentVersions this) |}
    else this.
Proof. rewrite setVersion_run. by destruct (switches this sheetName version). Qed.

Lemma setVersion_schemas (this : Service) (sheetName version : jsstring) :
  schemas (final (setVersion sheetName version this)) = schemas this.
Proof. rewrite setVersion_final. by destruct (switches this sheetName version). Qed.

Lemma switches_false_plain (this : Service) (sheetName version : jsstring) :
  plain_name version →
  switches this sheetName version = false ↔
    schemas this !! sheetName = None
    ∨ ∃ versions, schemas this !! sheetName = Some versions
                  ∧ versions !! version = None.
Proof.
  intros Hplain. unfold switches.
  destruct (schemas this !! sheetName) as [versions|]; cbn.
  - rewrite <- not_true_iff_false, has_member_plain by done.
    rewrite <- eq_None_not_Some. split.
    + intros Hnone. right. by exists versions.
    + by intros [? | (? & [= <-] & ?)].
  - split; [by left | done].
Qed.

(** C6 (amended).  For a table identifier and a version identifier that are
    names no plain object inherits: [setVersion(table, version)] throws the
    not-found error exactly when the table is unknown or the version is not
    in the table's version set; it never creates a version (the version
    tables are what they were, on success and on failure).  On success it
    returns and writes [version] into the table's active-version pointer,
    and nothing else; when [version] is not the empty string,
    [getSchema(table)] then returns the schema stored under [version]. *)
Theorem setVersion_switches_to_existing_version
    (this : Service) (sheetName version : jsstring) :
  plain_name sheetName →
  plain_name version →
  (NotFoundError (outcome (setVersion sheetName version this)) ↔
     schemas this !! sheetName = None
     ∨ ∃ versions, schemas this !! sheetName = Some versions
                   ∧ versions !! version = None)
  ∧ (NotFoundError (outcome (setVersion sheetName version this))
     ∨ outcome (setVersion sheetName version this) = Return ())
  ∧ schemas (final (setVersion sheetName version this)) = schemas this
  ∧ (outcome (setVersion sheetName version this) = Return () →
       currentVersions (final (setVersion sheetName version this))
         = <[sheetName := version]> (currentVersions this)
       ∧ (version ≠ [] →
            ∃ versions s,
              schemas this !! sheetName = Some versions
              ∧ versions !! version = Some s
              ∧ outcome (getSchema sheetName (final (setVersion sheetName version this)))
                = Return (Some s))).
Proof.
  intros _ Hplain.
  rewrite <- (switches_false_plain _ _ _ Hplain), setVersion_outcome,
    setVersion_final.
  destruct (switches this sheetName version) eqn:Hsw.
  - apply switches_plain in Hsw as (versions & Hs & [s Hv]); [|done].
    split; [|split; [|split]].
    + split; [by intros [? ?] | done].
    + by right.
    + reflexivity.
    + intros _. split; [reflexivity|]. intros Hne.
      exists versions, s. split; [done|]. split; [done|].
      rewrite getSchema_run. cbn. rewrite Hs, lookup_insert_eq.
      destruct version; [done|]. cbn. by rewrite Hv.
  - split; [|split; [|split]].
    + split; [done | intros _; by eexists].
    + left. by eexists.
    + reflexivity.
    + done.
Qed.

(** The instance of C6 (amended) on the example sheet: [setVersion("T",
    "v1")] succeeds and [getSchema("T")] returns the schema of ["v1"];
    [setVersion("T", "v2")], for a version that was never created, throws
    the not-found error. *)
Lemma setVersion_switches_to_existing_version_witness :
  plain_name Ex.T
  ∧ plain_name Ex.v1
  ∧ plain_name Ex.v2
  ∧ outcome (setVersion Ex.T Ex.v1 Ex.service) = Return ()
  ∧ Ex.v1 ≠ []
  ∧ outcome (getSchema Ex.T (final (setVersion Ex.T Ex.v1 Ex.service)))
    = Return (Some Ex.two_fields)
  ∧ NotFoundError (outcome (setVersion Ex.T Ex.v2 Ex.service)).
Proof.
  assert (HT : plain_name Ex.T) by (apply (bool_decide_unpack _); vm_compute; exact I).
  assert (Hv1 : plain_name Ex.v1) by (apply (bool_decide_unpack _); vm_compute; exact I).
  assert (Hv2 : plain_name Ex.v2) by (apply (bool_decide_unpack _); vm_compute; exact I).
  assert (Hok : outcome (setVersion Ex.T Ex.v1 Ex.service) = Return ())
    by reflexivity.
  assert (Hne : Ex.v1 ≠ []) by done.
  refine (conj HT (conj Hv1 (conj Hv2 (conj Hok (conj Hne (conj _ _)))))).
  - destruct (proj2 (proj2 (proj2 (proj2
      (setVersion_switches_to_existing_version Ex.service Ex.T Ex.v1 HT Hv1))) Hok) Hne)
      as (versions & s & Hs & Hv & Hget).
    rewrite Hget. f_equal. f_equal.
    injection Hs as <-. by injection Hv as <-.
  - apply (proj1 (setVersion_switches_to_existing_version Ex.service Ex.T Ex.v2 HT Hv2)).
    right. exists {[ Ex.v1 := Ex.two_fields ]}. split; reflexivity.
Defined.

(** C6, as stated, fails at the empty version identifier: a version created
    as [""] exists, [setVersion("T", "")] succeeds and points to it, and
    [getSchema("T")] then throws instead of resolving through the pointer. *)
Lemma setVersion_empty_version_counterexample :
  (∃ versions s, schemas Ex.with_empty_version !! Ex.T = Some versions
                 ∧ versions !! [] = Some s)
  ∧ outcome (setVersion Ex.T [] Ex.with_empty_version) = Return ()
  ∧ currentVersions (final (setVersion Ex.T [] Ex.with_empty_version)) !! Ex.T
    = Some []
  ∧ outcome (getSchema Ex.T (final (setVersion Ex.T [] Ex.with_empty_version)))
    = Throw (Error (str "Schema not found for sheet: T")).
Proof.
  split; [|by vm_compute].
  eexists _, _. split; vm_compute; reflexivity.
Qed.

(** C8.  [addField] and [setVersion] are atomic on the registry: a call that
    throws leaves the service object (every version table and every
    active-version pointer) exactly as it was. *)
Theorem mutators_fail_without_change (bus : bool) (this : Service)
    (sheetName fieldName headerName newVersion version : jsstring) :
  (∀ e, outcome (addField bus sheetName fieldName headerName newVersion this)
          = Throw e →
        final (addField bus sheetName fieldName headerName newVersion this) = this)
  ∧ (∀ e, outcome (setVersion sheetName version this) = Throw e →
          final (setVersion sheetName version this) = this).
Proof.
  rewrite addField_outcome, addField_final, setVersion_outcome, setVersion_final.
  split; intros e.
  - by destruct (schemas this !! sheetName).
  - by destruct (switches this sheetName version).
Qed.

(** The instance of C8 at two failing calls: an unknown sheet for [addField],
    a version that was never created for [setVersion]. *)
Lemma mutators_fail_without_change_witness :
  (outcome (addField true (str "nope") Ex.f3 Ex.h3 Ex.v2 Ex.service)
     = Throw (Error (str "Sheet schema not found: nope"))
   ∧ final (addField true (str "nope") Ex.f3 Ex.h3 Ex.v2 Ex.service) = Ex.service)
  ∧ (outcome (setVersion Ex.T Ex.v2 Ex.service)
       = Throw (Error (str "Schema version v2 not found for sheet: T"))
     ∧ final (setVersion Ex.T Ex.v2 Ex.service) = Ex.service).
Proof.
  assert (Ha : outcome (addField true (str "nope") Ex.f3 Ex.h3 Ex.v2 Ex.service)
               = Throw (Error (str "Sheet schema not found: nope")))
    by reflexivity.
  assert (Hs : outcome (setVersion Ex.T Ex.v2 Ex.service)
               = Throw (Error (str "Schema version v2 not found for sheet: T")))
    by reflexivity.
  pose proof (mutators_fail_without_change true Ex.service (str "nope")
                Ex.f3 Ex.h3 Ex.v2 Ex.v2) as [Hadd _].
  pose proof (mutators_fail_without_change true Ex.service Ex.T
                Ex.f3 Ex.h3 Ex.v2 Ex.v2) as [_ Hset].
  exact (conj (conj Ha (Hadd _ Ha)) (conj Hs (Hset _ Hs))).
Defined.

Lemma addField_keeps_active_version (bus : bool) (this : Service)
    (sheetName fieldName headerName newVersion sheet' : jsstring) :
  active_version_exists this sheet' →
  active_version_exists
    (final (addField bus sheetName fieldName headerName newVersion this)) sheet'.
Proof.
  rewrite addField_final.
  destruct (schemas this !! sheetName) as [versions|] eqn:Hs; [|done].
  intros (v & versions' & Hv & Hs' & Hin). unfold active_version_exists. cbn.
  destruct (decide (sheetName = sheet')) as [<-|Hne].
  - rewrite Hs in Hs'. injection Hs' as <-.
    eexists v, _. rewrite lookup_insert_eq. split; [done|]. split; [done|].
    apply lookup_insert_is_Some'. by right.
  - exists v, versions'. by rewrite lookup_insert_ne.
Qed.

Lemma addField_mentions (bus : bool) (this : Service)
    (sheetName fieldName headerName newVersion sheet' : jsstring) :
  let this' := final (addField bus sheetName fieldName headerName newVersion this) in
  (is_Some (schemas this' !! sheet') ↔ is_Some (schemas this !! sheet'))
  ∧ currentVersions this' = currentVersions this.
Proof.
  cbn zeta. rewrite addField_final.
  destruct (schemas this !! sheetName) as [versions|] eqn:Hs; [|done]. cbn.
  split; [|done]. rewrite lookup_insert_is_Some'.
  split; [|by right]. intros [<- | ?]; [by rewrite Hs | done].
Qed.

Lemma setVersion_keeps_active_version (this : Service)
    (sheetName version sheet' : jsstring) :
  plain_name version →
  active_version_exists this sheet' →
  active_version_exists (final (setVersion sheetName version this)) sheet'.
Proof.
  intros Hplain. rewrite setVersion_final.
  destruct (switches this sheetName version) eqn:Hsw; [|done].
  apply switches_plain in Hsw as (versions & Hs & Hin); [|done].
  intros (v & versions' & Hv & Hs' & Hin'). unfold active_version_exists. cbn.
  destruct (decide (sheetName = sheet')) as [<-|Hne].
  - exists version, versions. by rewrite lookup_insert_eq.
  - exists v, versions'. by rewrite lookup_insert_ne.
Qed.

Lemma setVersion_activates (this : Service) (sheetName version : jsstring) :
  plain_name version →
  outcome (setVersion sheetName version this) = Return () →
  active_version_exists (final (setVersion sheetName version this)) sheetName.
Proof.
  intros Hplain. rewrite setVersion_outcome, setVersion_final.
  destruct (switches this sheetName version) eqn:Hsw; [|done].
  apply switches_plain in Hsw as (versions & Hs & Hin); [|done].
  intros _. exists version, versions. cbn. by rewrite lookup_insert_eq.
Qed.

Lemma example_service_invariant : registry_invariant Ex.service.
Proof.
  intros sheetName Hmentioned.
  destruct (decide (sheetName = Ex.T)) as [->|Hne].
  - exists Ex.v1, {[ Ex.v1 := Ex.two_fields ]}.
    split; [reflexivity|]. split; [reflexivity|]. by eexists.
  - unfold Ex.service in Hmentioned. cbn [schemas currentVersions] in Hmentioned.
    rewrite !lookup_singleton_ne in Hmentioned by done.
    by destruct Hmentioned as [[? ?] | [? ?]].
Qed.

(** C7.  The code departs from the claim at a version identifier that
    plain objects inherit.  On the example registry every pointer names a
    version of its sheet, and the sheet ["T"] has no version ["toString"];
    yet [setVersion("T", "toString")] returns, because its guard reads the
    inherited [toString] in the version table, and leaves the pointer of
    ["T"] at ["toString"], which is no version of ["T"]: the invariant is
    broken by one successful call. *)
Lemma setVersion_breaks_invariant_on_inherited_name :
  registry_invariant Ex.service
  ∧ schemas Ex.service !! Ex.T = Some {[ Ex.v1 := Ex.two_fields ]}
  ∧ ({[ Ex.v1 := Ex.two_fields ]} : gmap (list N) (list (list N * list N)))
      !! str "toString" = None
  ∧ outcome (setVersion Ex.T (str "toString") Ex.service) = Return ()
  ∧ schemas (final (setVersion Ex.T (str "toString") Ex.service))
    = schemas Ex.service
  ∧ currentVersions (final (setVersion Ex.T (str "toString") Ex.service)) !! Ex.T
    = Some (str "toString")
  ∧ ¬ active_version_exists (final (setVersion Ex.T (str "toString") Ex.service)) Ex.T
  ∧ ¬ registry_invariant (final (setVersion Ex.T (str "toString") Ex.service)).
Proof.
  assert (Hbroken : ¬ active_version_exists
                        (final (setVersion Ex.T (str "toString") Ex.service)) Ex.T).
  { intros (v & versions & Hv & Hs & Hin).
    rewrite setVersion_schemas in Hs. rewrite setVersion_final in Hv.
    replace (switches Ex.service Ex.T (str "toString")) with true in Hv
      by reflexivity.
    cbn [currentVersions] in Hv. rewrite lookup_insert_eq in Hv.
    injection Hv as <-.
    unfold Ex.service in Hs. cbn [schemas] in Hs.
    rewrite lookup_singleton_eq in Hs. injection Hs as <-.
    rewrite lookup_singleton_ne in Hin by done. by destruct Hin. }
  split; [apply example_service_invariant|].
  do 5 (split; [reflexivity|]).
  split; [done|].
  intros Hinv. apply Hbroken, Hinv. left. by eexists.
Qed.

Lemma getHeaders_Return (this : Service) (sheetName : jsstring)
    (expected : list jsstring) :
  outcome (getHeaders sheetName this) = Return expected ↔
    ∃ v versions o,
      active_version this sheetName v
      ∧ schemas this !! sheetName = Some versions
      ∧ versions !! v = Some o
      ∧ expected = Obj.values o.
Proof.
  rewrite getHeaders_run, getSchema_run. cbn [outcome]. unfold active_version.
  destruct (schemas this !! sheetName) as [versions|].
  - destruct (currentVersions this !! sheetName) as [[|c v]|]; cbn.
    + split; [done | by intros (? & ? & ? & [[= <-] ?] & _)].
    + destruct (versions !! (c :: v)) as [o|] eqn:Hlook.
      * split.
        -- intros [= <-]. by exists (c :: v), versions, o.
        -- intros (? & ? & ? & [[= <-] _] & [= <-] & Hl & ->).
           rewrite Hlook in Hl. by injection Hl as <-.
      * split; [done|].
        intros (? & ? & ? & [[= <-] _] & [= <-] & Hl & _). by rewrite Hlook in Hl.
    + split; [done | by intros (? & ? & ? & [? ?] & _)].
  - split; [done | by intros (? & ? & ? & _ & ? & _)].
Qed.

Lemma getSchema_Return_Some (this : Service) (sheetName : jsstring)
    (o : list (list N * list N)) :
  outcome (getSchema sheetName this) = Return (Some o) ↔
    ∃ v versions,
      active_version this sheetName v
      ∧ schemas this !! sheetName = Some versions
      ∧ versions !! v = Some o.
Proof.
  rewrite getSchema_run. cbn [outcome]. unfold active_version.
  destruct (schemas this !! sheetName) as [versions|].
  - destruct (currentVersions this !! sheetName) as [[|c v]|]; cbn.
    + split; [done | by intros (? & ? & [[= <-] ?] & _)].
    + split.
      * intros [= Hlook]. by exists (c :: v), versions.
      * intros (? & ? & [[= <-] _] & [= <-] & ->). done.
    + split; [done | by intros (? & ? & [? _] & _)].
  - split; [done | by intros (? & ? & _ & ? & _)].
Qed.

(** C3.  On a known table, [addField(table, fieldName, headerLabel,
    newVersion)] succeeds, stores a schema under [newVersion] in that
    table's version set and changes nothing else: every active-version
    pointer, every other version and every other table are as they were.
    The stored schema maps [fieldName] to [headerLabel]; when the table has
    an active schema, it is a copy of it with that field set: every other
    field has the label it has in the active schema, and the other fields
    come in the order of the active schema.  When moreover [newVersion] is a
    fresh, non-empty version name (such as ["v2"]), [getHeaders(table)]
    still returns the headers of the active schema, unchanged;
    [setVersion(table, newVersion)] then succeeds, after which
    [getSchema(table)] returns the stored copy and [getHeaders(table)] its
    labels, [headerLabel] among them.  ([newVersion] is not ["__proto__"],
    under which an assignment stores no property.) *)
Theorem addField_forks_without_activating (bus : bool) (this : Service)
    (sheetName fieldName headerName newVersion : jsstring)
    (versions : gmap (list N) (list (list N * list N))) :
  schemas this !! sheetName = Some versions →
  newVersion ≠ str "__proto__" →
  outcome (addField bus sheetName fieldName headerName newVersion this) = Return ()
  ∧ currentVersions (final (addField bus sheetName fieldName headerName newVersion this))
    = currentVersions this
  ∧ ∃ forked,
      schemas (final (addField bus sheetName fieldName headerName newVersion this))
      = <[sheetName := <[newVersion := forked]> versions]> (schemas this)
      ∧ Obj.get fieldName forked = Some headerName
      ∧ ∀ o, outcome (getSchema sheetName this) = Return (Some o) →
             Obj.canonical o = true →
             (∀ field, field ≠ fieldName → Obj.get field forked = Obj.get field o)
             ∧ filter (λ kv, kv.1 ≠ fieldName) forked
               = filter (λ kv, kv.1 ≠ fieldName) o
             ∧ (versions !! newVersion = None →
                newVersion ≠ [] →
                outcome (getHeaders sheetName
                           (final (addField bus sheetName fieldName headerName
                                     newVersion this)))
                  = Return (Obj.values o)
                ∧ outcome (setVersion sheetName newVersion
                             (final (addField bus sheetName fieldName headerName
                                       newVersion this)))
                  = Return ()
                ∧ outcome (getSchema sheetName
                             (final (setVersion sheetName newVersion
                                (final (addField bus sheetName fieldName headerName
                                          newVersion this)))))
                  = Return (Some forked)
                ∧ outcome (getHeaders sheetName
                             (final (setVersion sheetName newVersion
                                (final (addField bus sheetName fieldName headerName
                                          newVersion this)))))
                  = Return (Obj.values forked)
                ∧ headerName ∈ Obj.values forked).
Proof.
  intros Hs _. rewrite addField_outcome, addField_final, Hs.
  cbn [schemas currentVersions].
  split; [done|]. split; [done|].
  set (forked := Obj.set fieldName headerName
                   (Obj.spread_into []
                      (versions !! to_key (currentVersions this !! sheetName)))).
  exists forked. split; [done|]. split; [apply Obj_get_set_eq|].
  intros o Hschema Hcan.
  apply getSchema_Return_Some in Hschema
    as (v & versions' & [Hv Hvne] & Hs' & Hlook).
  rewrite Hs in Hs'. injection Hs' as <-.
  assert (Hforked : forked = Obj.set fieldName headerName o).
  { unfold forked. rewrite Hv. cbn [to_key]. by rewrite Hlook, Obj_spread_copy. }
  split; [|split].
  - intros field Hne. rewrite Hforked, Obj_get_set. by rewrite decide_False.
  - rewrite Hforked. apply Obj_set_others.
  - intros Hfresh Hne.
    assert (Hdiff : newVersion ≠ v) by (intros ->; by rewrite Hlook in Hfresh).
    assert (Hactive : outcome (getSchema sheetName
                       (final (setVersion sheetName newVersion
                          {| schemas := <[sheetName := <[newVersion := forked]> versions]>
                                          (schemas this);
                             currentVersions := currentVersions this |})))
                      = Return (Some forked)).
    { rewrite setVersion_final, (switches_own _ _ _ (<[newVersion := forked]> versions))
        by (by cbn; rewrite lookup_insert_eq).
      apply getSchema_Return_Some.
      exists newVersion, (<[newVersion := forked]> versions).
      unfold active_version. cbn. rewrite !lookup_insert_eq. by repeat split. }
    split; [|split; [|split; [|split]]].
    + apply getHeaders_Return. exists v, (<[newVersion := forked]> versions), o.
      unfold active_version. cbn. rewrite lookup_insert_eq, lookup_insert_ne by done.
      done.
    + by rewrite setVersion_outcome,
        (switches_own _ _ _ (<[newVersion := forked]> versions))
        by (by cbn; rewrite lookup_insert_eq).
    + exact Hactive.
    + by rewrite getHeaders_run, Hactive.
    + apply Obj_values_set.
Qed.

(** The instance of C3 on the example sheet: [addField("T", "f3", "h3",
    "v2")] leaves [getHeaders("T")] at [["h1", "h2"]]; after
    [setVersion("T", "v2")] it returns [["h1", "h2", "h3"]], the labels of
    the stored copy [{f1:'h1', f2:'h2', f3:'h3'}]. *)
Lemma addField_forks_without_activating_witness :
  schemas Ex.service !! Ex.T = Some {[ Ex.v1 := Ex.two_fields ]}
  ∧ Ex.v2 ≠ str "__proto__"
  ∧ outcome (getSchema Ex.T Ex.service) = Return (Some Ex.two_fields)
  ∧ Obj.canonical Ex.two_fields = true
  ∧ ({[ Ex.v1 := Ex.two_fields ]} : gmap (list N) (list (list N * list N))) !! Ex.v2
    = None
  ∧ Ex.v2 ≠ []
  ∧ outcome (getHeaders Ex.T (final (addField true Ex.T Ex.f3 Ex.h3 Ex.v2 Ex.service)))
    = Return [Ex.h1; Ex.h2]
  ∧ outcome (setVersion Ex.T Ex.v2
               (final (addField true Ex.T Ex.f3 Ex.h3 Ex.v2 Ex.service)))
    = Return ()
  ∧ outcome (getSchema Ex.T
               (final (setVersion Ex.T Ex.v2
                  (final (addField true Ex.T Ex.f3 Ex.h3 Ex.v2 Ex.service)))))
    = Return (Some [(Ex.f1, Ex.h1); (Ex.f2, Ex.h2); (Ex.f3, Ex.h3)])
  ∧ outcome (getHeaders Ex.T
               (final (setVersion Ex.T Ex.v2
                  (final (addField true Ex.T Ex.f3 Ex.h3 Ex.v2 Ex.service)))))
    = Return [Ex.h1; Ex.h2; Ex.h3].
Proof.
  assert (Hs : schemas Ex.service !! Ex.T = Some {[ Ex.v1 := Ex.two_fields ]})
    by reflexivity.
  assert (Hproto : Ex.v2 ≠ str "__proto__") by (by vm_compute).
  assert (Hschema : outcome (getSchema Ex.T Ex.service) = Return (Some Ex.two_fields))
    by reflexivity.
  assert (Hcan : Obj.canonical Ex.two_fields = true) by reflexivity.
  assert (Hfresh : ({[ Ex.v1 := Ex.two_fields ]}
                      : gmap (list N) (list (list N * list N))) !! Ex.v2 = None)
    by reflexivity.
  assert (Hne : Ex.v2 ≠ []) by done.
  refine (conj Hs (conj Hproto (conj Hschema (conj Hcan (conj Hfresh (conj Hne _)))))).
  destruct (addField_forks_without_activating true Ex.service Ex.T Ex.f3 Ex.h3 Ex.v2
              _ Hs Hproto) as (_ & _ & forked & Hstored & _ & Hcopy).
  destruct (Hcopy _ Hschema Hcan) as (_ & _ & Hfork).
  destruct (Hfork Hfresh Hne) as (Hsame & Hset & Hget & Hheaders & _).
  assert (Hforked : forked = [(Ex.f1, Ex.h1); (Ex.f2, Ex.h2); (Ex.f3, Ex.h3)]).
  { apply (f_equal (λ m : gmap (list N) (gmap (list N) (list (list N * list N))),
             m !! Ex.T ≫= (λ versions, versions !! Ex.v2))) in Hstored.
    rewrite lookup_insert_eq in Hstored. cbn in Hstored.
    rewrite lookup_insert_eq in Hstored. by injection Hstored as <-. }
  rewrite Hforked in Hget, Hheaders.
  exact (conj Hsame (conj Hset (conj Hget Hheaders))).
Defined.



(** ** Drift detection *)

Lemma some_absent (actualSet expectedSet : gset (list N)) :
  existsb (λ h, bool_decide (h ∉ expectedSet)) (elements actualSet) = true ↔
    ∃ h, h ∈ actualSet ∧ h ∉ expectedSet.
Proof.
  rewrite existsb_exists. split.
  - intros (h & Hin & Hout). exists h.
    apply list_elem_of_In, elem_of_elements in Hin.
    by apply bool_decide_eq_true in Hout.
  - intros (h & Hin & Hout). exists h. split.
    + by apply list_elem_of_In, elem_of_elements.
    + by apply bool_decide_eq_true.
Qed.

(** C1 (amended).  For a table with an active schema, whose header labels
    in schema order are [expected], [detectSchemaChanges(table, actual)]
    returns: [missing], the expected headers, in schema order, that are not
    among the trimmed actual headers; [extra], the actual headers, untrimmed
    and in input order, whose trimmed form is not an expected header;
    [hasChanges], true exactly when the set of trimmed actual headers and the
    set of expected headers differ in size or some trimmed actual header is
    not expected (the literal two-clause test).  Expected labels are compared
    as they are, only actual headers are trimmed: when the trimmed actual
    headers are a permutation of the expected headers, [hasChanges] is
    false. *)
Theorem detectSchemaChanges_reports_drift (this : Service) (sheetName : jsstring)
    (actual : list jsstring) (o : list (list N * list N)) :
  outcome (getSchema sheetName this) = Return (Some o) →
  ∃ d,
    outcome (detectSchemaChanges sheetName actual this) = Return d
    ∧ missing d = filter (λ h, h ∉ trim <$> actual) (Obj.values o)
    ∧ extra d = filter (λ h, trim h ∉ Obj.values o) actual
    ∧ (hasChanges d = true ↔
         size (list_to_set (trim <$> actual) : gset (list N))
           ≠ size (list_to_set (Obj.values o) : gset (list N))
         ∨ ∃ h, h ∈ (list_to_set (trim <$> actual) : gset (list N))
                ∧ h ∉ (list_to_set (Obj.values o) : gset (list N)))
    ∧ (trim <$> actual ≡ₚ Obj.values o → hasChanges d = false).
Proof.
  intros Hschema. rewrite detectSchemaChanges_run, getHeaders_run, Hschema.
  cbn [outcome]. eexists. split; [reflexivity|]. cbn [missing extra hasChanges].
  split; [|split; [|split]].
  - apply list_filter_iff. intros h. by rewrite elem_of_list_to_set.
  - apply list_filter_iff. intros h. by rewrite elem_of_list_to_set.
  - by rewrite orb_true_iff, bool_decide_eq_true, some_absent.
  - intros Hperm.
    assert (Hsets : (list_to_set (trim <$> actual) : gset (list N))
                    = list_to_set (Obj.values o))
      by (by apply list_to_set_perm_L).
    rewrite Hsets. apply orb_false_iff. split.
    + by apply bool_decide_eq_false; intros H.
    + apply not_true_iff_false. rewrite some_absent. by intros (h & Hin & Hout).
Qed.

(** The instance of C1 (amended) on the example sheet, with the actual
    headers in another order and padded with spaces. *)
Lemma detectSchemaChanges_reports_drift_witness :
  outcome (getSchema Ex.T Ex.service) = Return (Some Ex.two_fields)
  ∧ trim <$> [str " h2"; str "h1 "] ≡ₚ Obj.values Ex.two_fields
  ∧ ∃ d, outcome (detectSchemaChanges Ex.T [str " h2"; str "h1 "] Ex.service)
         = Return d
         ∧ hasChanges d = false.
Proof.
  assert (Hschema : outcome (getSchema Ex.T Ex.service) = Return (Some Ex.two_fields))
    by reflexivity.
  assert (Hperm : trim <$> [str " h2"; str "h1 "] ≡ₚ Obj.values Ex.two_fields)
    by apply perm_swap.
  refine (conj Hschema (conj Hperm _)).
  destruct (detectSchemaChanges_reports_drift Ex.service Ex.T
              [str " h2"; str "h1 "] Ex.two_fields Hschema)
    as (d & Hd & _ & _ & _ & Hsame).
  exists d. exact (conj Hd (Hsame Hperm)).
Defined.

(** C1, as stated, fails on its last sentence: for a schema whose header
    label carries surrounding whitespace, actual headers equal to the
    expected headers (a permutation of them) are reported as drift, because
    the actual header is trimmed and the expected label is not. *)
Lemma detectSchemaChanges_permutation_counterexample :
  outcome (getHeaders Ex.T Ex.padded) = Return [str " h1 "; str "h2"]
  ∧ [str "h2"; str " h1 "] ≡ₚ [str " h1 "; str "h2"]
  ∧ outcome (detectSchemaChanges Ex.T [str "h2"; str " h1 "] Ex.padded)
    = Return {| missing := [str " h1 "];
                extra := [str " h1 "];
                hasChanges := true |}.
Proof. split; [reflexivity|]. split; [apply perm_swap|]. by vm_compute. Qed.

(** ** Decoding a row *)

Lemma forEach_from_snoc {A St : Type} (f : St → A → nat → St)
    (i : nat) (a : list A) (x : A) (s : St) :
  forEach_from f i (a ++ [x]) s = f (forEach_from f i a s) x (i + length a)%nat.
Proof.
  revert i s. induction a as [|y a IH]; intros i s; cbn.
  - by rewrite Nat.add_0_r.
  - by rewrite IH, Nat.add_succ_r.
Qed.

Lemma reverse_snoc (o : list (list N * list N)) (field header : jsstring) :
  _getReverseSchema (Some (o ++ [(field, header)]))
  = if bool_decide (header = str "__proto__") then _getReverseSchema (Some o)
    else <[header := field]> (_getReverseSchema (Some o)).
Proof. unfold _getReverseSchema, Obj.entries. by rewrite foldl_snoc. Qed.

(** [reverse] never gets an own property ["__proto__"]. *)
Lemma reverse_proto (schema : option (list (list N * list N))) :
  _getReverseSchema schema !! str "__proto__" = None.
Proof.
  destruct schema as [o|]; [|apply lookup_empty].
  induction o as [|[f0 h0] o IH] using rev_ind; [apply lookup_empty|].
  rewrite reverse_snoc. case_bool_decide as Hproto; [done|].
  by rewrite lookup_insert_ne.
Qed.

(** [field_of_label] along the enumeration of the schema. *)
Lemma field_of_label_snoc (o : list (list N * list N)) (f0 h0 header field : jsstring) :
  field_of_label (o ++ [(f0, h0)]) header field ↔
    if decide (h0 = header) then field = f0 else field_of_label o header field.
Proof.
  unfold field_of_label. destruct (decide (h0 = header)) as [->|Hne]; split.
  - intros (before & after & Heq & Hlast).
    destruct after as [|[f1 h1] after _] using rev_ind.
    + by apply app_inj_tail in Heq as [_ [= ->]].
    + rewrite app_comm_cons, app_assoc in Heq.
      apply app_inj_tail in Heq as [_ [= <- <-]].
      exfalso. apply Hlast. unfold Obj.values.
      rewrite fmap_app. apply elem_of_app. right. cbn. apply list_elem_of_here.
  - intros ->. exists o, []. split; [done | apply not_elem_of_nil].
  - intros (before & after & Heq & Hlast).
    destruct after as [|[f1 h1] after _] using rev_ind.
    + apply app_inj_tail in Heq as [_ [= _ ->]]. done.
    + rewrite app_comm_cons, app_assoc in Heq.
      apply app_inj_tail in Heq as [-> [= <- <-]].
      exists before, after. split; [done|].
      intros Hin. apply Hlast. unfold Obj.values in *.
      rewrite fmap_app. apply elem_of_app. by left.
  - intros (before & after & -> & Hlast).
    exists before, (after ++ [(f0, h0)]). split; [by rewrite <- app_assoc|].
    unfold Obj.values in *. rewrite fmap_app, elem_of_app. cbn.
    intros [? | Hin%list_elem_of_singleton]; [done | by subst].
Qed.

(** The reverse lookup gives, for a header other than ["__proto__"], the
    last field that carries it as its label; the label is the key as it
    stands in the schema. *)
Lemma reverse_lookup (o : list (list N * list N)) (header field : jsstring) :
  header ≠ str "__proto__" →
  _getReverseSchema (Some o) !! header = Some field ↔ field_of_label o header field.
Proof.
  intros Hproto. revert field.
  induction o as [|[f0 h0] o IH] using rev_ind; intros field.
  - cbn. rewrite lookup_empty. split; [done|].
    intros (before & after & Heq & _). by destruct before.
  - rewrite reverse_snoc, field_of_label_snoc.
    destruct (decide (h0 = header)) as [->|Hne].
    + rewrite bool_decide_eq_false_2 by done. rewrite lookup_insert_eq.
      split; [by intros [= ->] | by intros ->].
    + rewrite <- IH. case_bool_decide; [done | by rewrite lookup_insert_ne].
Qed.

Lemma field_of_label_elem (o : list (list N * list N)) (header field : jsstring) :
  field_of_label o header field → (field, header) ∈ o.
Proof.
  intros (before & after & -> & _). apply elem_of_app. right. apply list_elem_of_here.
Qed.

Lemma field_of_label_unique (o : list (list N * list N)) (header f f' : jsstring) :
  field_of_label o header f → field_of_label o header f' → f = f'.
Proof.
  induction o as [|[f0 h0] o IH] using rev_ind.
  - intros (before & after & Heq & _). by destruct before.
  - rewrite !field_of_label_snoc. destruct (decide (h0 = header)); [congruence | done].
Qed.

(** Every label of a schema has a field in the reverse lookup. *)
Lemma field_of_label_exists (o : list (list N * list N)) (header : jsstring) :
  header ∈ Obj.values o → ∃ field, field_of_label o header field.
Proof.
  unfold field_of_label, Obj.values.
  induction o as [|[f0 h0] o IH] using rev_ind.
  - by intros ?%not_elem_of_nil.
  - rewrite fmap_app, elem_of_app. cbn. intros Hin.
    destruct (decide (h0 = header)) as [->|Hne].
    + exists f0, o, []. split; [done | apply not_elem_of_nil].
    + destruct Hin as [Hin | Hin%list_elem_of_singleton]; [|done].
      destruct (IH Hin) as (field & before & after & -> & Hlast).
      exists field, before, (after ++ [(f0, h0)]). split; [by rewrite <- app_assoc|].
      rewrite fmap_app, elem_of_app. cbn.
      intros [? | ?%list_elem_of_singleton]; [done | by subst].
Qed.

(** For a schema without ["__proto__"] and a header it can decode, the read
    of [reverse] finds an own property or nothing, and the field it finds is
    not ["__proto__"]. *)
Lemma decodable_read (o : list (list N * list N)) (header : jsstring) :
  plain_schema o →
  trim header ∈ Obj.values o ∨ plain_name (trim header) →
  (is_Some (_getReverseSchema (Some o) !! trim header) ∨ plain_name (trim header))
  ∧ (∀ field, _getReverseSchema (Some o) !! trim header = Some field →
              field ≠ str "__proto__").
Proof.
  intros [Hkeys Hvalues] Hheader. split.
  - destruct Hheader as [Hlabel | Hplain]; [left | by right].
    assert (Hproto : trim header ≠ str "__proto__") by (by intros Heq; rewrite Heq in Hlabel).
    destruct (field_of_label_exists _ _ Hlabel) as [field Hfield].
    exists field. by apply reverse_lookup.
  - intros field Hrev.
    destruct (decide (trim header = str "__proto__")) as [Heq|Hproto].
    + by rewrite Heq, reverse_proto in Hrev.
    + apply reverse_lookup, field_of_label_elem in Hrev; [|done].
      intros ->. apply Hkeys. unfold Obj.keys. apply list_elem_of_fmap.
      by exists (str "__proto__", trim header).
Qed.

(** What one run of the callback leaves under [field], when the read of
    [reverse] finds an own property or nothing and the field it finds is not
    ["__proto__"]. *)
Lemma each_lookup (reverseSchema : gmap (list N) (list N)) (rowData : list jsval)
    (mappedData : row_object) (header : jsstring) (index : nat)
    (field : jsstring) :
  is_Some (reverseSchema !! trim header) ∨ plain_name (trim header) →
  (∀ f, reverseSchema !! trim header = Some f → f ≠ str "__proto__") →
  properties (mapRowToObject_each reverseSchema rowData mappedData header index)
    !! field
  = if bool_decide (reverseSchema !! trim header = Some field)
       && negb (bool_decide (field = []))
       && is_defined (element rowData index)
    then Some (element rowData index)
    else properties mappedData !! field.
Proof.
  intros Hread Hfield. unfold mapRowToObject_each, read.
  destruct (reverseSchema !! trim header) as [f|] eqn:Hrev.
  - assert (Hproto : f ≠ str "__proto__") by (by apply Hfield).
    destruct f as [|c f]; cbn.
    + case_bool_decide as Heq; [|done]. injection Heq as <-.
      by rewrite bool_decide_eq_true_2.
    + destruct (is_defined (element rowData index)) eqn:Hdef; cbn.
      * unfold assign. rewrite (bool_decide_eq_false_2 _ Hproto). cbn.
        case_bool_decide as Heq.
        -- injection Heq as <-. by rewrite lookup_insert_eq.
        -- rewrite lookup_insert_ne by congruence. done.
      * by rewrite andb_false_r.
  - destruct Hread as [[? ?] | Hplain]; [done|].
    by rewrite bool_decide_eq_false_2.
Qed.

Lemma is_defined_true (v : jsval) : is_defined v = true ↔ v ≠ JUndefined.
Proof. by destruct v. Qed.

Lemma assigns_lt (o : list (list N * list N)) (headers : list jsstring)
    (rowData : list jsval) (i : nat) (field : jsstring) (v : jsval) :
  assigns o headers rowData i field v → (i < length headers)%nat.
Proof. intros (header & Hi & _). by eapply lookup_lt_Some. Qed.

Lemma assigns_app_l (o : list (list N * list N)) (headers : list jsstring)
    (x : jsstring) (rowData : list jsval) (i : nat) (field : jsstring) (v : jsval) :
  (i < length headers)%nat →
  assigns o (headers ++ [x]) rowData i field v ↔ assigns o headers rowData i field v.
Proof. intros Hi. unfold assigns. by rewrite lookup_app_l. Qed.

Lemma assigns_last (o : list (list N * list N)) (headers : list jsstring)
    (x : jsstring) (rowData : list jsval) (field : jsstring) (v : jsval) :
  trim x ≠ str "__proto__" →
  assigns o (headers ++ [x]) rowData (length headers) field v ↔
    _getReverseSchema (Some o) !! trim x = Some field
    ∧ field ≠ []
    ∧ element rowData (length headers) = v
    ∧ v ≠ JUndefined.
Proof.
  intros Hproto. unfold assigns. rewrite list_lookup_middle by done.
  rewrite reverse_lookup by done. split.
  - by intros (header & [= <-] & ?).
  - intros ?. by exists x.
Qed.

Lemma decodable_snoc (o : list (list N * list N)) (headers : list jsstring)
    (x : jsstring) :
  decodable o (headers ++ [x]) →
  decodable o headers ∧ (trim x ∈ Obj.values o ∨ plain_name (trim x)).
Proof.
  intros Hdec. split.
  - intros header Hin. apply Hdec, elem_of_app. by left.
  - apply Hdec, elem_of_app. right. apply list_elem_of_here.
Qed.

(** The mapped row, field by field: the value of a field is the one given
    by the last position that gives it one. *)
Lemma mapped_lookup (o : list (list N * list N)) (headers : list jsstring)
    (rowData : list jsval) (field : jsstring) (v : jsval) :
  plain_schema o →
  decodable o headers →
  properties
    (forEach (mapRowToObject_each (_getReverseSchema (Some o)) rowData) headers
       empty_object)
    !! field = Some v ↔
  ∃ i, assigns o headers rowData i field v
       ∧ ∀ j v', (i < j)%nat → ¬ assigns o headers rowData j field v'.
Proof.
  intros Hplain. unfold forEach. revert v.
  induction headers as [|x headers IH] using rev_ind; intros v Hdec.
  - cbn. rewrite lookup_empty. split; [done|].
    intros (i & (header & Hi & _) & _). by rewrite lookup_nil in Hi.
  - apply decodable_snoc in Hdec as [Hdec Hx].
    destruct (decodable_read o x Hplain Hx) as [Hread Hfield].
    assert (Hproto : trim x ≠ str "__proto__").
    { destruct Hplain as [_ Hvalues].
      destruct Hx as [Hx | Hx]; [by intros Heq; rewrite Heq in Hx|].
      by apply plain_name_not_proto. }
    rewrite forEach_from_snoc, (each_lookup _ _ _ _ _ _ Hread Hfield). cbn [Nat.add].
    destruct (bool_decide (_getReverseSchema (Some o) !! trim x = Some field)
              && negb (bool_decide (field = []))
              && is_defined (element rowData (length headers))) eqn:Hhit.
    + apply andb_true_iff in Hhit as [[Hrev%bool_decide_eq_true Hne]%andb_true_iff Hdef].
      apply negb_true_iff, bool_decide_eq_false in Hne.
      apply is_defined_true in Hdef.
      assert (Hlast : assigns o (headers ++ [x]) rowData (length headers) field
                        (element rowData (length headers)))
        by (by apply assigns_last).
      split.
      * intros [= <-]. exists (length headers). split; [done|].
        intros j v' Hj Hassign%assigns_lt. rewrite length_app in Hassign. cbn in Hassign. lia.
      * intros (i & Hassign & Hlater).
        destruct (decide (i = length headers)) as [->|Hi].
        -- apply assigns_last in Hassign as (_ & _ & <- & _); done.
        -- exfalso. apply (Hlater (length headers) (element rowData (length headers)));
             [|done].
           apply assigns_lt in Hassign. rewrite length_app in Hassign. cbn in Hassign. lia.
    + assert (Hmiss : ∀ v', ¬ assigns o (headers ++ [x]) rowData (length headers) field v').
      { intros v' (Hrev & Hne & Hv & Hdef)%assigns_last; [|done].
        rewrite bool_decide_eq_true_2 in Hhit by done.
        rewrite bool_decide_eq_false_2 in Hhit by done.
        subst v'. apply is_defined_true in Hdef. by rewrite Hdef in Hhit. }
      rewrite (IH v Hdec). split.
      * intros (i & Hassign & Hlater).
        pose proof (assigns_lt _ _ _ _ _ _ Hassign) as Hi.
        exists i. split; [by apply assigns_app_l|].
        intros j v' Hj Hassign'.
        pose proof (assigns_lt _ _ _ _ _ _ Hassign') as Hj'.
        rewrite length_app in Hj'. cbn in Hj'.
        destruct (decide (j = length headers)) as [->|Hne]; [by eapply Hmiss|].
        apply (Hlater j v'); [done|]. apply assigns_app_l in Hassign'; [done | lia].
      * intros (i & Hassign & Hlater).
        pose proof (assigns_lt _ _ _ _ _ _ Hassign) as Hi.
        rewrite length_app in Hi. cbn in Hi.
        destruct (decide (i = length headers)) as [->|Hne]; [by destruct (Hmiss v)|].
        exists i. split; [apply assigns_app_l in Hassign; [done | lia]|].
        intros j v' Hj Hassign'.
        pose proof (assigns_lt _ _ _ _ _ _ Hassign') as Hj'.
        apply (Hlater j v'); [done|]. apply assigns_app_l; [lia | done].
Qed.

Lemma mapRowToObject_outcome (this : Service) (sheetName : jsstring)
    (headers : list jsstring) (rowData : list jsval) (o : list (list N * list N)) :
  outcome (getSchema sheetName this) = Return (Some o) →
  outcome (mapRowToObject sheetName headers rowData this)
  = Return (properties
              (forEach (mapRowToObject_each (_getReverseSchema (Some o)) rowData)
                 headers empty_object)).
Proof. intros Hschema. by rewrite mapRowToObject_run, Hschema. Qed.

(** One header that is the label of a field: the mapped row holds that
    field alone. *)
Lemma one_header_decoded (o : list (list N * list N)) (actual field : jsstring)
    (v : jsval) :
  trim actual ≠ str "__proto__" → field ≠ str "__proto__" →
  field_of_label o (trim actual) field → field ≠ [] → v ≠ JUndefined →
  properties
    (forEach (mapRowToObject_each (_getReverseSchema (Some o)) [v]) [actual]
       empty_object)
  = {[ field := v ]}.
Proof.
  intros Hactual Hfield Hlabel%reverse_lookup Hne Hv%is_defined_true; [|done].
  unfold forEach. cbn [forEach_from]. unfold mapRowToObject_each, read.
  rewrite Hlabel. cbn. rewrite Hv. destruct field as [|c field]; [done|]. cbn.
  unfold assign. rewrite (bool_decide_eq_false_2 _ Hfield). cbn.
  by rewrite insert_empty.
Qed.

(** The round trip on a two-field schema whose labels are distinct and
    carry no surrounding whitespace. *)
Lemma two_fields_round_trip (f1 h1 f2 h2 : jsstring) (v1 v2 : jsval) :
  plain_schema [(f1, h1); (f2, h2)] →
  h1 ≠ h2 → trim h1 = h1 → trim h2 = h2 → f1 ≠ [] → f2 ≠ [] →
  v1 ≠ JUndefined → v2 ≠ JUndefined →
  properties
    (forEach (mapRowToObject_each (_getReverseSchema (Some [(f1, h1); (f2, h2)]))
                [v1; v2]) [h1; h2] empty_object)
  = <[f2 := v2]> (<[f1 := v1]> ∅).
Proof.
  intros [Hkeys Hvalues] Hh Ht1 Ht2 Hf1 Hf2 Hv1%is_defined_true Hv2%is_defined_true.
  unfold Obj.keys, Obj.values in Hkeys, Hvalues. cbn in Hkeys, Hvalues.
  apply not_elem_of_cons in Hkeys as [Hk1 [Hk2 _]%not_elem_of_cons].
  apply not_elem_of_cons in Hvalues as [Hl1 [Hl2 _]%not_elem_of_cons].
  unfold forEach. cbn [forEach_from]. unfold mapRowToObject_each, read.
  rewrite Ht1, Ht2. cbn [_getReverseSchema Obj.entries foldl element].
  rewrite !bool_decide_eq_false_2 by done.
  rewrite lookup_insert_eq, lookup_insert_ne, lookup_insert_eq by done.
  cbn [lookup list_lookup default]. cbn. rewrite Hv1, Hv2.
  destruct f1 as [|c1 f1], f2 as [|c2 f2]; try done. cbn.
  unfold assign. cbn [properties null_prototype empty_object].
  by rewrite !bool_decide_eq_false_2 by done.
Qed.

(** C2 (amended).  For a table with an active schema that has no field and
    no label named ["__proto__"], and actual headers whose trimmed forms are
    labels of the schema or names that a plain object does not inherit,
    [mapRowToObject(table, actualHeaders, rowValues)] never throws and
    returns the mapping in which a field has value [v] exactly when some
    position [i] gives it [v] and no later position gives it a value;
    position [i] gives [field] the value [rowValues[i]] when the trimmed
    header at [i] equals, as it stands, the header label of [field] in the
    active schema (the last such field), the field name is not the empty
    string, and [rowValues[i]] is present (an explicit empty string is;
    [undefined] is not).  Such actual headers that are not labels of the
    schema give nothing.  In particular, for a schema [{f1:h1, f2:h2}] with
    distinct labels that carry no surrounding whitespace, non-empty field
    names and present values, [mapRowToObject(T, [h1,h2], [v1,v2])] yields
    [{f1:v1, f2:v2}]. *)
Theorem mapRowToObject_decodes_row (this : Service) (sheetName : jsstring) :
  (∀ (o : list (list N * list N)) (headers : list jsstring) (rowData : list jsval),
     outcome (getSchema sheetName this) = Return (Some o) →
     plain_schema o →
     decodable o headers →
     ∃ mapped,
       outcome (mapRowToObject sheetName headers rowData this) = Return mapped
       ∧ ∀ field v,
           mapped !! field = Some v ↔
           ∃ i, assigns o headers rowData i field v
                ∧ ∀ j v', (i < j)%nat → ¬ assigns o headers rowData j field v')
  ∧ (∀ (f1 h1 f2 h2 : jsstring) (v1 v2 : jsval),
       outcome (getSchema sheetName this) = Return (Some [(f1, h1); (f2, h2)]) →
       plain_schema [(f1, h1); (f2, h2)] →
       h1 ≠ h2 → trim h1 = h1 → trim h2 = h2 → f1 ≠ [] → f2 ≠ [] →
       v1 ≠ JUndefined → v2 ≠ JUndefined →
       outcome (mapRowToObject sheetName [h1; h2] [v1; v2] this)
       = Return (<[f2 := v2]> (<[f1 := v1]> ∅))).
Proof.
  split.
  - intros o headers rowData Hschema Hplain Hdec. eexists. split.
    + by apply mapRowToObject_outcome.
    + intros field v. by apply mapped_lookup.
  - intros f1 h1 f2 h2 v1 v2 Hschema Hplain Hh Ht1 Ht2 Hf1 Hf2 Hv1 Hv2.
    rewrite (mapRowToObject_outcome _ _ _ _ _ Hschema).
    by rewrite two_fields_round_trip.
Qed.

(** The instance of C2 (amended) on the example sheet: the round trip, with
    an empty string as one of the values, and a row with a repeated header
    and a header that is no label. *)
Lemma mapRowToObject_decodes_row_witness :
  outcome (getSchema Ex.T Ex.service) = Return (Some [(Ex.f1, Ex.h1); (Ex.f2, Ex.h2)])
  ∧ plain_schema [(Ex.f1, Ex.h1); (Ex.f2, Ex.h2)]
  ∧ decodable [(Ex.f1, Ex.h1); (Ex.f2, Ex.h2)] [Ex.h1; str "zz"; Ex.h1]
  ∧ Ex.h1 ≠ Ex.h2 ∧ trim Ex.h1 = Ex.h1 ∧ trim Ex.h2 = Ex.h2
  ∧ Ex.f1 ≠ [] ∧ Ex.f2 ≠ []
  ∧ JStr [] ≠ JUndefined ∧ JNum 7 ≠ JUndefined
  ∧ outcome (mapRowToObject Ex.T [Ex.h1; Ex.h2] [JStr []; JNum 7] Ex.service)
    = Return (<[Ex.f2 := JNum 7]> (<[Ex.f1 := JStr []]> ∅))
  ∧ ∃ mapped,
      outcome (mapRowToObject Ex.T [Ex.h1; str "zz"; Ex.h1] [JNum 1; JNum 2; JNum 3]
                 Ex.service) = Return mapped
      ∧ ∀ field v,
          mapped !! field = Some v ↔
          ∃ i, assigns [(Ex.f1, Ex.h1); (Ex.f2, Ex.h2)] [Ex.h1; str "zz"; Ex.h1]
                 [JNum 1; JNum 2; JNum 3] i field v
               ∧ ∀ j v', (i < j)%nat →
                   ¬ assigns [(Ex.f1, Ex.h1); (Ex.f2, Ex.h2)] [Ex.h1; str "zz"; Ex.h1]
                       [JNum 1; JNum 2; JNum 3] j field v'.
Proof.
  assert (Hschema : outcome (getSchema Ex.T Ex.service)
                    = Return (Some [(Ex.f1, Ex.h1); (Ex.f2, Ex.h2)])) by reflexivity.
  assert (Hplain : plain_schema [(Ex.f1, Ex.h1); (Ex.f2, Ex.h2)])
    by (split; apply (bool_decide_unpack _); vm_compute; exact I).
  assert (Hdec : decodable [(Ex.f1, Ex.h1); (Ex.f2, Ex.h2)] [Ex.h1; str "zz"; Ex.h1])
    by (apply decodable_Forall; apply (bool_decide_unpack _); vm_compute; exact I).
  assert (Hh : Ex.h1 ≠ Ex.h2) by done.
  assert (Ht1 : trim Ex.h1 = Ex.h1) by reflexivity.
  assert (Ht2 : trim Ex.h2 = Ex.h2) by reflexivity.
  assert (Hf1 : Ex.f1 ≠ []) by done.
  assert (Hf2 : Ex.f2 ≠ []) by done.
  assert (Hv1 : JStr [] ≠ JUndefined) by done.
  assert (Hv2 : JNum 7 ≠ JUndefined) by done.
  refine (conj Hschema (conj Hplain (conj Hdec (conj Hh (conj Ht1 (conj Ht2
            (conj Hf1 (conj Hf2 (conj Hv1 (conj Hv2 (conj _ _))))))))))).
  - exact (proj2 (mapRowToObject_decodes_row Ex.service Ex.T)
             Ex.f1 Ex.h1 Ex.f2 Ex.h2 (JStr []) (JNum 7)
             Hschema Hplain Hh Ht1 Ht2 Hf1 Hf2 Hv1 Hv2).
  - exact (proj1 (mapRowToObject_decodes_row Ex.service Ex.T)
             [(Ex.f1, Ex.h1); (Ex.f2, Ex.h2)] [Ex.h1; str "zz"; Ex.h1]
             [JNum 1; JNum 2; JNum 3] Hschema Hplain Hdec).
Defined.

(** C2, as stated, fails in three ways.  A repeated actual header: both
    positions carry the label of [f1] and a present value, and the mapping
    holds only the second value.  A label with surrounding whitespace: the
    round trip on [{f1:' h1 ', f2:'h2'}] loses [f1].  A field named by the
    empty string: its header is a label of the schema, its value is present,
    and the mapping is empty. *)
Lemma mapRowToObject_counterexample :
  (outcome (getSchema Ex.T Ex.service) = Return (Some [(Ex.f1, Ex.h1); (Ex.f2, Ex.h2)])
   ∧ ∃ mapped,
       outcome (mapRowToObject Ex.T [Ex.h1; Ex.h1] [JStr (str "a"); JStr (str "b")]
                  Ex.service) = Return mapped
       ∧ mapped !! Ex.f1 ≠ Some (JStr (str "a")))
  ∧ (outcome (getSchema Ex.T Ex.padded)
       = Return (Some [(Ex.f1, str " h1 "); (Ex.f2, Ex.h2)])
     ∧ ∃ mapped,
         outcome (mapRowToObject Ex.T [str " h1 "; Ex.h2]
                    [JStr (str "a"); JStr (str "b")] Ex.padded) = Return mapped
         ∧ mapped !! Ex.f1 = None
         ∧ mapped ≠ <[Ex.f2 := JStr (str "b")]> (<[Ex.f1 := JStr (str "a")]> ∅))
  ∧ (outcome (getSchema Ex.T Ex.unnamed) = Return (Some [([], Ex.h1)])
     ∧ outcome (mapRowToObject Ex.T [Ex.h1] [JStr (str "a")] Ex.unnamed) = Return ∅).
Proof.
  split; [|split].
  - split; [reflexivity|]. eexists. split; [reflexivity|]. by vm_compute.
  - split; [reflexivity|]. eexists. split; [reflexivity|]. split; [by vm_compute|].
    intros Heq. apply (f_equal (λ m : gmap (list N) jsval, m !! Ex.f1)) in Heq.
    by vm_compute in Heq.
  - split; reflexivity.
Qed.

Lemma forEach_from_trim (reverseSchema : gmap (list N) (list N))
    (rowData : list jsval) (headers : list jsstring) (i : nat)
    (mappedData : row_object) :
  forEach_from (mapRowToObject_each reverseSchema rowData) i (trim <$> headers)
    mappedData
  = forEach_from (mapRowToObject_each reverseSchema rowData) i headers mappedData.
Proof.
  revert i mappedData. induction headers as [|x headers IH]; intros i m; cbn; [done|].
  rewrite IH. f_equal. unfold mapRowToObject_each. by rewrite trim_idemp.
Qed.

(** C4 (amended).  Matching is whitespace-insensitive on the actual side
    only.  [mapRowToObject] gives the same result on the actual headers and
    on the trimmed actual headers ([" h1 "] maps as ["h1"] does).  The
    reverse lookup keeps each expected header label as it stands in the
    schema, untrimmed (a label other than ["__proto__"], which the
    assignment [reverse[header] = field] does not store).  An actual header
    whose trimmed form equals a label maps to the field of that label (label
    and field other than ["__proto__"], non-empty field name, present
    value).  A field whose label carries surrounding whitespace is matched
    by no actual header, bare or padded (no field and no label named
    ["__proto__"], the actual headers being labels of the schema or names
    that a plain object does not inherit). *)
Theorem mapRowToObject_trims_actual_headers_only (this : Service)
    (sheetName : jsstring) (o : list (list N * list N)) :
  outcome (getSchema sheetName this) = Return (Some o) →
  (∀ headers rowData,
     mapRowToObject sheetName (trim <$> headers) rowData this
     = mapRowToObject sheetName headers rowData this)
  ∧ (∀ header field,
       header ≠ str "__proto__" →
       (_getReverseSchema (Some o) !! header = Some field ↔
        field_of_label o header field))
  ∧ (∀ actual field v,
       trim actual ≠ str "__proto__" → field ≠ str "__proto__" →
       field_of_label o (trim actual) field → field ≠ [] → v ≠ JUndefined →
       outcome (mapRowToObject sheetName [actual] [v] this) = Return {[ field := v ]})
  ∧ (∀ field headers rowData mapped,
       plain_schema o →
       decodable o headers →
       (∀ label, (field, label) ∈ o → trim label ≠ label) →
       outcome (mapRowToObject sheetName headers rowData this) = Return mapped →
       mapped !! field = None).
Proof.
  intros Hschema. split; [|split; [|split]].
  - intros headers rowData. rewrite !mapRowToObject_run. do 2 f_equal.
    destruct (outcome (getSchema sheetName this)) as [s|e]; [|done].
    do 2 f_equal. apply forEach_from_trim.
  - intros header field Hproto. by apply reverse_lookup.
  - intros actual field v Hactual Hfield Hlabel Hne Hv.
    rewrite (mapRowToObject_outcome _ _ _ _ _ Hschema). f_equal.
    by apply one_header_decoded.
  - intros field headers rowData mapped Hplain Hdec Hpadded.
    rewrite (mapRowToObject_outcome _ _ _ _ _ Hschema). intros [= <-].
    apply eq_None_not_Some. intros [v Hv].
    apply mapped_lookup in Hv as (i & (header & _ & Hlabel & _) & _); [|done..].
    apply field_of_label_elem, Hpadded in Hlabel. by rewrite trim_idemp in Hlabel.
Qed.

(** The instance of C4 (amended) on the example sheet: the padded actual
    header [" h1 "] maps to [f1], whose label is ["h1"]. *)
Lemma mapRowToObject_trims_actual_headers_only_witness :
  outcome (getSchema Ex.T Ex.service) = Return (Some Ex.two_fields)
  ∧ trim (str " h1 ") ≠ str "__proto__"
  ∧ Ex.f1 ≠ str "__proto__"
  ∧ field_of_label Ex.two_fields (trim (str " h1 ")) Ex.f1
  ∧ Ex.f1 ≠ []
  ∧ JNum 7 ≠ JUndefined
  ∧ outcome (mapRowToObject Ex.T [str " h1 "] [JNum 7] Ex.service)
    = Return {[ Ex.f1 := JNum 7 ]}.
Proof.
  assert (Hschema : outcome (getSchema Ex.T Ex.service) = Return (Some Ex.two_fields))
    by reflexivity.
  assert (Hactual : trim (str " h1 ") ≠ str "__proto__") by (by vm_compute).
  assert (Hfield : Ex.f1 ≠ str "__proto__") by (by vm_compute).
  assert (Hlabel : field_of_label Ex.two_fields (trim (str " h1 ")) Ex.f1).
  { exists [], [(Ex.f2, Ex.h2)]. split; [reflexivity|].
    cbn. intros Heq%list_elem_of_singleton. by vm_compute in Heq. }
  assert (Hne : Ex.f1 ≠ []) by done.
  assert (Hv : JNum 7 ≠ JUndefined) by done.
  refine (conj Hschema (conj Hactual (conj Hfield (conj Hlabel (conj Hne (conj Hv _)))))).
  exact (proj1 (proj2 (proj2
           (mapRowToObject_trims_actual_headers_only Ex.service Ex.T Ex.two_fields
              Hschema))) (str " h1 ") Ex.f1 (JNum 7) Hactual Hfield Hlabel Hne Hv).
Defined.

(** C4, as stated, fails: with the schema [{f1:' h1 ', f2:'h2'}], whose
    first label carries surrounding whitespace, neither the bare actual
    header ["h1"] nor the padded [" h1 "] maps to [f1]. *)
Lemma mapRowToObject_padded_label_counterexample :
  outcome (getSchema Ex.T Ex.padded) = Return (Some [(Ex.f1, str " h1 "); (Ex.f2, Ex.h2)])
  ∧ trim (str "h1") = trim (str " h1 ")
  ∧ outcome (mapRowToObject Ex.T [str "h1"] [JNum 7] Ex.padded) = Return ∅
  ∧ outcome (mapRowToObject Ex.T [str " h1 "] [JNum 7] Ex.padded) = Return ∅.
Proof. repeat split. Qed.

(** ** The registry as shipped *)

Lemma shipped_schemas_canonical :
  Obj.canonical metaLog_v1 = true
  ∧ Obj.canonical dailyReport_v1 = true
  ∧ Obj.canonical behaviorScores_v1 = true.
Proof. by vm_compute. Qed.

(** The object literal stores canonical schemas, whatever the configured
    sheet names. *)
Lemma SchemaService_schemas_canonical (CONFIG : Config) :
  schemas_canonical (SchemaService CONFIG).
Proof.
  destruct shipped_schemas_canonical as (Hm & Hd & Hb).
  intros sheetName versions v o. cbn [SchemaService schemas].
  rewrite !lookup_insert_Some, lookup_empty.
  intros [[_ <-] | [_ [[_ <-] | [_ [[_ <-] | [_ ?]]]]]]; [| | |done];
    intros [_ <-]%lookup_singleton_Some; done.
Qed.

(** With every version constant of the configuration equal to ["v1"], the
    object literal satisfies the active-version invariant. *)
Lemma SchemaService_invariant (CONFIG : Config) :
  MetaLog CONFIG = str "v1" →
  DailyReport CONFIG = str "v1" →
  BehaviorScores CONFIG = str "v1" →
  registry_invariant (SchemaService CONFIG).
Proof.
  intros Hm Hd Hb sheetName Hmentioned. unfold active_version_exists.
  revert Hmentioned. cbn [SchemaService schemas currentVersions].
  rewrite Hm, Hd, Hb.
  destruct (decide (BEHAVIOR_SHEET CONFIG = sheetName)) as [->|Hne1].
  { intros _. rewrite !lookup_insert_eq. eexists _, _.
    split; [done|]. split; [done|]. by rewrite lookup_singleton_eq. }
  rewrite !(lookup_insert_ne _ (BEHAVIOR_SHEET CONFIG)) by done.
  destruct (decide (DAILY_SHEET CONFIG = sheetName)) as [->|Hne2].
  { intros _. rewrite !lookup_insert_eq. eexists _, _.
    split; [done|]. split; [done|]. by rewrite lookup_singleton_eq. }
  rewrite !(lookup_insert_ne _ (DAILY_SHEET CONFIG)) by done.
  destruct (decide (SHEET_NAME CONFIG = sheetName)) as [->|Hne3].
  { intros _. rewrite !lookup_insert_eq. eexists _, _.
    split; [done|]. split; [done|]. by rewrite lookup_singleton_eq. }
  rewrite !(lookup_insert_ne _ (SHEET_NAME CONFIG)) by done.
  rewrite !lookup_empty. by intros [[? ?] | [? ?]].
Qed.

(** Forking and switching keep the stored schemas canonical. *)
Lemma mutators_keep_schemas_canonical (bus : bool) (this : Service)
    (sheetName fieldName headerName newVersion version : jsstring) :
  schemas_canonical this →
  schemas_canonical (final (addField bus sheetName fieldName headerName newVersion this))
  ∧ schemas_canonical (final (setVersion sheetName version this)).
Proof.
  intros Hcan. split.
  - rewrite addField_final.
    destruct (schemas this !! sheetName) as [versions|] eqn:Hs; [|done].
    intros sheet' versions' v o. cbn [schemas].
    rewrite lookup_insert_Some. intros [[_ <-] | [_ Hs']].
    + rewrite lookup_insert_Some. intros [[_ <-] | [_ Hv]].
      * apply canonical_set, canonical_spread. done.
      * by eapply Hcan.
    + by eapply Hcan.
  - unfold schemas_canonical. by rewrite setVersion_schemas.
Qed.

(** * Further properties *)

(** ** Drift detection, continued *)

Lemma filter_empty_iff {A : Type} (P : A → Prop) `{!∀ x, Decision (P x)}
    (l : list A) :
  filter P l = [] ↔ ∀ x, x ∈ l → ¬ P x.
Proof.
  split.
  - intros Hnil x Hin HP. by eapply filter_nil_not_elem_of.
  - intros Hall. induction l as [|x l IH]; [done|].
    rewrite filter_cons. destruct (decide (P x)) as [HP|_].
    + destruct (Hall x); [apply list_elem_of_here | done].
    + apply IH. intros y Hy. apply Hall. by apply list_elem_of_further.
Qed.

Lemma detectSchemaChanges_Return (this : Service) (sheetName : jsstring)
    (actual : list jsstring) (d : SchemaDiff) :
  outcome (detectSchemaChanges sheetName actual this) = Return d ↔
    ∃ expected,
      outcome (getHeaders sheetName this) = Return expected
      ∧ d = {|
          missing := filter (λ h, h ∉ (list_to_set (trim <$> actual) : gset (list N)))
                       expected;
          extra := filter (λ h, trim h ∉ (list_to_set expected : gset (list N)))
                     actual;
          hasChanges :=
            bool_decide (size (list_to_set (trim <$> actual) : gset (list N))
                         ≠ size (list_to_set expected : gset (list N)))
            || existsb (λ h, bool_decide (h ∉ (list_to_set expected : gset (list N))))
                 (elements (list_to_set (trim <$> actual) : gset (list N)))
        |}.
Proof.
  rewrite detectSchemaChanges_run. cbn [outcome].
  destruct (outcome (getHeaders sheetName this)) as [expected|e].
  - split.
    + intros [= <-]. by exists expected.
    + by intros (? & [= <-] & ->).
  - split; [done | by intros (? & ? & _)].
Qed.

(** The two clauses together test equality of the two sets. *)
Lemma two_clause_test (A E : gset (list N)) :
  bool_decide (size A ≠ size E) || existsb (λ h, bool_decide (h ∉ E)) (elements A)
  = false ↔ A = E.
Proof.
  rewrite orb_false_iff, bool_decide_eq_false, <- not_true_iff_false, some_absent.
  split.
  - intros [Hsize Hsub]. apply set_subseteq_size_eq; [|lia].
    intros h Hh. destruct (decide (h ∈ E)); [done|]. destruct Hsub. by exists h.
  - intros ->. split; [lia | by intros (h & ? & ?)].
Qed.

(** X1.  The two-clause test is exact: whenever [detectSchemaChanges]
    returns, [hasChanges] is false exactly when [missing] and [extra] are
    both empty, repeated headers included. *)
Theorem hasChanges_iff_missing_or_extra (this : Service) (sheetName : jsstring)
    (actual : list jsstring) (d : SchemaDiff) :
  outcome (detectSchemaChanges sheetName actual this) = Return d →
  (hasChanges d = false ↔ missing d = [] ∧ extra d = []).
Proof.
  intros (expected & _ & ->)%detectSchemaChanges_Return.
  cbn [missing extra hasChanges].
  set (A := list_to_set (trim <$> actual) : gset (list N)).
  set (E := list_to_set expected : gset (list N)).
  rewrite two_clause_test, !filter_empty_iff.
  assert (HE : (∀ h, h ∈ expected → ¬ (h ∉ A)) ↔ E ⊆ A).
  { split.
    - intros H h Hh%elem_of_list_to_set. specialize (H h Hh).
      by destruct (decide (h ∈ A)).
    - intros H h Hh Hout. apply Hout, H. by apply elem_of_list_to_set. }
  assert (HA : (∀ h, h ∈ actual → ¬ (trim h ∉ E)) ↔ A ⊆ E).
  { split.
    - intros H h Hh%elem_of_list_to_set.
      apply list_elem_of_fmap in Hh as (a & -> & Ha). specialize (H a Ha).
      by destruct (decide (trim a ∈ E)).
    - intros H h Hh Hout. apply Hout, H, elem_of_list_to_set.
      by apply list_elem_of_fmap_2. }
  rewrite HE, HA. split.
  - by intros ->.
  - intros [HEA HAE]. apply set_eq. intros h. split; [apply HAE | apply HEA].
Qed.

(** On the example sheet, for headers with none missing and none extra. *)
Lemma hasChanges_iff_missing_or_extra_witness :
  outcome (detectSchemaChanges Ex.T [str "h2 "; Ex.h1; Ex.h2] Ex.service)
  = Return {| missing := []; extra := []; hasChanges := false |}
  ∧ (false = false ↔ ([] : list (list N)) = [] ∧ ([] : list (list N)) = []).
Proof.
  assert (Hd : outcome (detectSchemaChanges Ex.T [str "h2 "; Ex.h1; Ex.h2] Ex.service)
               = Return {| missing := []; extra := []; hasChanges := false |})
    by (by vm_compute).
  exact (conj Hd (hasChanges_iff_missing_or_extra _ _ _ _ Hd)).
Defined.

(** X2.  A header label of the active schema that carries surrounding
    whitespace is reported missing whatever the sheet holds: for every list
    of actual headers the label is in [missing] and [hasChanges] is true. *)
Theorem padded_label_is_always_missing (this : Service) (sheetName : jsstring)
    (o : list (list N * list N)) (label : jsstring) (actual : list jsstring) :
  outcome (getSchema sheetName this) = Return (Some o) →
  label ∈ Obj.values o →
  trim label ≠ label →
  ∃ d, outcome (detectSchemaChanges sheetName actual this) = Return d
       ∧ label ∈ missing d
       ∧ hasChanges d = true.
Proof.
  intros Hschema Hlabel Hpadded.
  destruct (outcome (detectSchemaChanges sheetName actual this)) as [d|e] eqn:Hd.
  2: { revert Hd. by rewrite detectSchemaChanges_run, getHeaders_run, Hschema. }
  exists d. split; [done|].
  apply detectSchemaChanges_Return in Hd as (expected & Hexp & ->).
  rewrite getHeaders_run, Hschema in Hexp. injection Hexp as <-.
  cbn [missing hasChanges].
  assert (Hout : label ∉ (list_to_set (trim <$> actual) : gset (list N))).
  { intros (a & Heq & _)%elem_of_list_to_set%list_elem_of_fmap. apply Hpadded.
    by rewrite Heq, trim_idemp. }
  split; [by apply list_elem_of_filter|].
  apply not_false_iff_true. intros Hsame%two_clause_test.
  apply Hout. rewrite Hsame. by apply elem_of_list_to_set.
Qed.

(** On the padded example schema, against its own header row. *)
Lemma padded_label_is_always_missing_witness :
  outcome (getSchema Ex.T Ex.padded) = Return (Some [(Ex.f1, str " h1 "); (Ex.f2, Ex.h2)])
  ∧ str " h1 " ∈ Obj.values [(Ex.f1, str " h1 "); (Ex.f2, Ex.h2)]
  ∧ trim (str " h1 ") ≠ str " h1 "
  ∧ ∃ d, outcome (detectSchemaChanges Ex.T [str " h1 "; Ex.h2] Ex.padded) = Return d
         ∧ str " h1 " ∈ missing d
         ∧ hasChanges d = true.
Proof.
  assert (Hschema : outcome (getSchema Ex.T Ex.padded)
                    = Return (Some [(Ex.f1, str " h1 "); (Ex.f2, Ex.h2)]))
    by reflexivity.
  assert (Hin : str " h1 " ∈ Obj.values [(Ex.f1, str " h1 "); (Ex.f2, Ex.h2)])
    by apply list_elem_of_here.
  assert (Hpad : trim (str " h1 ") ≠ str " h1 ") by (by vm_compute).
  exact (conj Hschema (conj Hin (conj Hpad
           (padded_label_is_always_missing Ex.padded Ex.T _ _ [str " h1 "; Ex.h2]
              Hschema Hin Hpad)))).
Defined.

Lemma filter_fmap_trim (E : gset (list N)) (l : list jsstring) :
  filter (λ h, trim h ∉ E) (trim <$> l) = trim <$> filter (λ h, trim h ∉ E) l.
Proof.
  induction l as [|x l IH]; [done|]. cbn [fmap list_fmap].
  rewrite !filter_cons, trim_idemp.
  destruct (decide (trim x ∉ E)); cbn [fmap list_fmap]; by rewrite IH.
Qed.

(** X3.  Drift detection does not depend on the whitespace around the
    actual headers: on the trimmed headers [detectSchemaChanges] returns the
    same [missing] and the same [hasChanges], and [extra] lists the trimmed
    forms of the headers it lists otherwise; it throws on the one exactly
    when it throws on the other. *)
Theorem detectSchemaChanges_on_trimmed_headers (this : Service)
    (sheetName : jsstring) (actual : list jsstring) :
  outcome (detectSchemaChanges sheetName (trim <$> actual) this)
  = match outcome (detectSchemaChanges sheetName actual this) with
    | Return d =>
        Return {| missing := missing d;
                  extra := trim <$> extra d;
                  hasChanges := hasChanges d |}
    | Throw e => Throw e
    end.
Proof.
  rewrite !detectSchemaChanges_run. cbn [outcome].
  destruct (outcome (getHeaders sheetName this)) as [expected|e]; [|done].
  cbn [missing extra hasChanges].
  assert (Htrim : trim <$> (trim <$> actual) = trim <$> actual).
  { rewrite <- list_fmap_compose. apply list_fmap_ext. intros _ x _. apply trim_idemp. }
  rewrite Htrim. do 2 f_equal.
  apply filter_fmap_trim.
Qed.

(** ** Errors of the reads *)

Lemma forEach_from_no_schema (rowData : list jsval) (headers : list jsstring)
    (i : nat) (mappedData : row_object) :
  (∀ header, header ∈ headers → plain_name (trim header)) →
  forEach_from (mapRowToObject_each ∅ rowData) i headers mappedData = mappedData.
Proof.
  revert i. induction headers as [|x headers IH]; intros i Hplain; cbn; [done|].
  unfold mapRowToObject_each at 2, read. rewrite lookup_empty.
  rewrite bool_decide_eq_false_2 by (apply Hplain, list_elem_of_here). cbn.
  apply IH. intros header Hin. by apply Hplain, list_elem_of_further.
Qed.

Lemma getSchema_dangling (this : Service) (sheetName : jsstring) :
  outcome (getSchema sheetName this) = Return None ↔ dangling_pointer this sheetName.
Proof.
  rewrite getSchema_run. cbn [outcome]. unfold dangling_pointer, active_version.
  destruct (schemas this !! sheetName) as [versions|].
  - destruct (currentVersions this !! sheetName) as [[|c v]|]; cbn.
    + split; [done | by intros (? & ? & [[= <-] ?] & _)].
    + split.
      * intros [= Hnone]. by exists (c :: v), versions.
      * intros (? & ? & [[= <-] _] & [= <-] & ->). done.
    + split; [done | by intros (? & ? & [? _] & _)].
  - split; [done | by intros (? & ? & _ & ? & _)].
Qed.

(** X4.  A pointer that names a missing version splits the reads.  For a
    sheet identifier and a pointer that are names no plain object inherits:
    [getHeaders] throws a TypeError exactly in that case, and then
    [detectSchemaChanges] throws it too for every header list, while
    [mapRowToObject] returns the empty mapping for every row and every list
    of headers whose trimmed forms no plain object inherits (the guard of
    [_getReverseSchema]). *)
Theorem dangling_pointer_reads (this : Service) (sheetName : jsstring) :
  plain_name sheetName →
  (∀ v, currentVersions this !! sheetName = Some v → plain_name v) →
  (outcome (getHeaders sheetName this) = Throw TypeError ↔
     dangling_pointer this sheetName)
  ∧ (dangling_pointer this sheetName →
       (∀ actual, outcome (detectSchemaChanges sheetName actual this) = Throw TypeError)
       ∧ (∀ headers rowData,
            (∀ header, header ∈ headers → plain_name (trim header)) →
            outcome (mapRowToObject sheetName headers rowData this) = Return ∅)).
Proof.
  intros _ _. rewrite <- getSchema_dangling. split.
  - rewrite getHeaders_run, getSchema_run. cbn [outcome].
    destruct (schemas this !! sheetName) as [versions|]; [|done].
    destruct (truthy (currentVersions this !! sheetName)); [|done].
    by destruct (versions !! to_key (currentVersions this !! sheetName)).
  - intros Hnone. split.
    + intros actual. by rewrite detectSchemaChanges_run, getHeaders_run, Hnone.
    + intros headers rowData Hplain. rewrite mapRowToObject_run, Hnone. cbn.
      unfold forEach. by rewrite forEach_from_no_schema.
Qed.

(** On the example whose pointer names the missing version ["v2"]. *)
Lemma dangling_pointer_reads_witness :
  plain_name Ex.T
  ∧ (∀ v, currentVersions Ex.dangling !! Ex.T = Some v → plain_name v)
  ∧ dangling_pointer Ex.dangling Ex.T
  ∧ (∀ header, header ∈ [Ex.h1] → plain_name (trim header))
  ∧ outcome (getHeaders Ex.T Ex.dangling) = Throw TypeError
  ∧ outcome (detectSchemaChanges Ex.T [Ex.h1] Ex.dangling) = Throw TypeError
  ∧ outcome (mapRowToObject Ex.T [Ex.h1] [JNum 1] Ex.dangling) = Return ∅.
Proof.
  assert (HT : plain_name Ex.T) by (apply (bool_decide_unpack _); vm_compute; exact I).
  assert (Hv : ∀ v, currentVersions Ex.dangling !! Ex.T = Some v → plain_name v).
  { intros v [= <-]. apply (bool_decide_unpack _). vm_compute. exact I. }
  assert (Hd : dangling_pointer Ex.dangling Ex.T).
  { exists Ex.v2, {[ Ex.v1 := Ex.two_fields ]}.
    split; [split; [reflexivity | done]|]. split; reflexivity. }
  assert (Hh : ∀ header, header ∈ [Ex.h1] → plain_name (trim header)).
  { intros header ->%list_elem_of_singleton.
    apply (bool_decide_unpack _). vm_compute. exact I. }
  destruct (dangling_pointer_reads Ex.dangling Ex.T HT Hv) as [Hheaders Hrest].
  destruct (Hrest Hd) as [Hdetect Hmap].
  exact (conj HT (conj Hv (conj Hd (conj Hh
           (conj (proj2 Hheaders Hd) (conj (Hdetect _) (Hmap _ _ Hh))))))).
Defined.

(** X5.  Lenient reads: whether [mapRowToObject] or [detectSchemaChanges]
    throws depends on the sheet alone, never on the headers or the row.
    [mapRowToObject] throws exactly the exception [getSchema] throws and
    [detectSchemaChanges] exactly the one [getHeaders] throws; otherwise they
    return. *)
Theorem reads_throw_only_for_the_sheet (this : Service) (sheetName : jsstring)
    (headers actual : list jsstring) (rowData : list jsval) (e : exn) :
  (outcome (mapRowToObject sheetName headers rowData this) = Throw e ↔
     outcome (getSchema sheetName this) = Throw e)
  ∧ (outcome (detectSchemaChanges sheetName actual this) = Throw e ↔
       outcome (getHeaders sheetName this) = Throw e)
  ∧ ((∃ mapped, outcome (mapRowToObject sheetName headers rowData this) = Return mapped)
     ∨ NotFoundError (outcome (mapRowToObject sheetName headers rowData this))).
Proof.
  rewrite mapRowToObject_run, detectSchemaChanges_run. cbn [outcome].
  split; [|split].
  - destruct (outcome (getSchema sheetName this));
      [by split | split; by intros [= ->]].
  - destruct (outcome (getHeaders sheetName this));
      [by split | split; by intros [= ->]].
  - rewrite getSchema_run. cbn [outcome].
    destruct (schemas this !! sheetName) as [versions|]; [|right; by eexists].
    destruct (truthy (currentVersions this !! sheetName));
      [left; by eexists | right; by eexists].
Qed.

(** ** One sheet at a time *)

Lemma reads_follow_getSchema (this this' : Service) (sheetName : jsstring) :
  outcome (getSchema sheetName this') = outcome (getSchema sheetName this) →
  outcome (getHeaders sheetName this') = outcome (getHeaders sheetName this)
  ∧ (∀ headers rowData,
       outcome (mapRowToObject sheetName headers rowData this')
       = outcome (mapRowToObject sheetName headers rowData this))
  ∧ (∀ actual,
       outcome (detectSchemaChanges sheetName actual this')
       = outcome (detectSchemaChanges sheetName actual this)).
Proof.
  intros Hsame. split; [|split]; intros;
    rewrite ?detectSchemaChanges_run, ?mapRowToObject_run, ?getHeaders_run;
    cbn [outcome]; by rewrite Hsame.
Qed.

Lemma getSchema_other_sheet (this this' : Service) (sheet' : jsstring) :
  schemas this' !! sheet' = schemas this !! sheet' →
  currentVersions this' !! sheet' = currentVersions this !! sheet' →
  outcome (getSchema sheet' this') = outcome (getSchema sheet' this).
Proof. intros Hs Hc. rewrite !getSchema_run. cbn [outcome]. by rewrite Hs, Hc. Qed.

(** X6.  A mutator called on one sheet changes no read of another sheet:
    after [addField] or [setVersion] on [sheetName], successful or not,
    [getSchema], [getHeaders], [mapRowToObject] and [detectSchemaChanges]
    give for every other sheet the outcome they gave before.  ([sheetName]
    is a sheet of the registry or a name that no plain object inherits.) *)
Theorem mutators_touch_one_sheet (bus : bool) (this : Service)
    (sheetName fieldName headerName newVersion version sheet' : jsstring) :
  is_Some (schemas this !! sheetName) ∨ plain_name sheetName →
  sheetName ≠ sheet' →
  ∀ this',
    this' = final (addField bus sheetName fieldName headerName newVersion this)
    ∨ this' = final (setVersion sheetName version this) →
    outcome (getSchema sheet' this') = outcome (getSchema sheet' this)
    ∧ outcome (getHeaders sheet' this') = outcome (getHeaders sheet' this)
    ∧ (∀ headers rowData,
         outcome (mapRowToObject sheet' headers rowData this')
         = outcome (mapRowToObject sheet' headers rowData this))
    ∧ (∀ actual,
         outcome (detectSchemaChanges sheet' actual this')
         = outcome (detectSchemaChanges sheet' actual this)).
Proof.
  intros _ Hne this' Hthis'.
  assert (Hsame : outcome (getSchema sheet' this') = outcome (getSchema sheet' this)).
  { apply getSchema_other_sheet; destruct Hthis' as [-> | ->].
    - rewrite addField_final. destruct (schemas this !! sheetName); [|done].
      cbn. by rewrite lookup_insert_ne.
    - by rewrite setVersion_schemas.
    - rewrite addField_final. by destruct (schemas this !! sheetName).
    - rewrite setVersion_final.
      destruct (switches this sheetName version); [|done].
      cbn. by rewrite lookup_insert_ne. }
  split; [done|]. by apply reads_follow_getSchema.
Qed.

(** On the registry of the example configuration: a fork of the behaviour
    sheet is not seen from the daily sheet. *)
Lemma mutators_touch_one_sheet_witness :
  (is_Some (schemas example_registry !! str "BehaviorScores")
   ∨ plain_name (str "BehaviorScores"))
  ∧ str "BehaviorScores" ≠ str "DailyReport"
  ∧ outcome (getHeaders (str "DailyReport")
               (final (addField true (str "BehaviorScores") (str "note")
                         (str "Note") (str "v1") example_registry)))
    = outcome (getHeaders (str "DailyReport") example_registry).
Proof.
  assert (Hown : is_Some (schemas example_registry !! str "BehaviorScores")
                 ∨ plain_name (str "BehaviorScores")).
  { left. by eexists. }
  assert (Hne : str "BehaviorScores" ≠ str "DailyReport") by done.
  refine (conj Hown (conj Hne _)).
  exact (proj1 (proj2 (mutators_touch_one_sheet true example_registry
                  (str "BehaviorScores") (str "note") (str "Note") (str "v1")
                  (str "v1") (str "DailyReport") Hown Hne _ (or_introl eq_refl)))).
Defined.

(** ** Effects *)

Lemma addField_trace (bus : bool) (this : Service)
    (sheetName fieldName headerName newVersion : jsstring) :
  trace (addField bus sheetName fieldName headerName newVersion this) =
    match schemas this !! sheetName with
    | Some _ =>
        ConsoleLog
          (str "[SchemaService] Added field '" ++ fieldName ++ str "' to "
           ++ sheetName ++ str " schema version " ++ newVersion)
        :: (if bus
            then [Emit (str "SCHEMA_UPDATED")
                    {| ev_sheet := sheetName;
                       ev_oldVersion := currentVersions this !! sheetName;
                       ev_newVersion := newVersion;
                       ev_added := fieldName |}]
            else [])
    | None => []
    end.
Proof.
  unfold addField. run_method.
  destruct (schemas this !! sheetName) as [versions|]; [|reflexivity].
  by destruct bus.
Qed.

(** X7.  What the mutators log and emit.  A successful [addField] logs one
    line and then, when an event bus is defined, emits one [SCHEMA_UPDATED]
    event and nothing else: the event names the sheet, the added field and
    the new version, and its [oldVersion] is the pointer the sheet still has
    after the call.  A successful [setVersion] logs one line and emits no
    event.  A call that throws logs nothing and emits nothing. *)
Theorem events_of_the_mutators (bus : bool) (this : Service)
    (sheetName fieldName headerName newVersion version : jsstring) :
  trace (addField bus sheetName fieldName headerName newVersion this)
  = match outcome (addField bus sheetName fieldName headerName newVersion this) with
    | Return _ =>
        ConsoleLog
          (str "[SchemaService] Added field '" ++ fieldName ++ str "' to "
           ++ sheetName ++ str " schema version " ++ newVersion)
        :: (if bus
            then [Emit (str "SCHEMA_UPDATED")
                    {| ev_sheet := sheetName;
                       ev_oldVersion :=
                         currentVersions
                           (final (addField bus sheetName fieldName headerName
                                     newVersion this)) !! sheetName;
                       ev_newVersion := newVersion;
                       ev_added := fieldName |}]
            else [])
    | Throw _ => []
    end
  ∧ trace (setVersion sheetName version this)
    = match outcome (setVersion sheetName version this) with
      | Return _ =>
          [ConsoleLog
             (str "[SchemaService] Updated " ++ sheetName ++ str " schema from "
              ++ to_key (currentVersions this !! sheetName) ++ str " to " ++ version)]
      | Throw _ => []
      end.
Proof.
  rewrite addField_trace, addField_outcome, addField_final, setVersion_run.
  split.
  - by destruct (schemas this !! sheetName).
  - by destruct (switches this sheetName version).
Qed.

(** ** Switching twice *)

(** X8.  How [setVersion] composes.  Switching to the version the pointer
    already names changes nothing.  Of two successive switches of one sheet
    the second decides: when it succeeds the registry is the one it would
    have produced alone.  Switches of different sheets commute. *)
Theorem setVersion_composes (this : Service) (sheetName sheet' v v' : jsstring) :
  (currentVersions this !! sheetName = Some v →
     final (setVersion sheetName v this) = this)
  ∧ (outcome (setVersion sheetName v' this) = Return () →
       final (setVersion sheetName v' (final (setVersion sheetName v this)))
       = final (setVersion sheetName v' this))
  ∧ (sheetName ≠ sheet' →
       final (setVersion sheet' v' (final (setVersion sheetName v this)))
       = final (setVersion sheetName v (final (setVersion sheet' v' this)))).
Proof.
  split; [|split].
  - intros Hv. rewrite setVersion_final.
    destruct (switches this sheetName v); [|done].
    destruct this as [s c]. cbn in *. f_equal. by apply insert_id.
  - rewrite setVersion_outcome, !setVersion_final.
    destruct (switches this sheetName v') eqn:Hv'; [|done].
    intros _.
    destruct (switches this sheetName v); unfold switches in *;
      cbn [schemas currentVersions]; rewrite Hv'; [|done].
    by rewrite insert_insert_eq.
  - intros Hne. rewrite !setVersion_final.
    destruct (switches this sheetName v) eqn:Hv;
      destruct (switches this sheet' v') eqn:Hv'; unfold switches in *;
      cbn [schemas currentVersions]; rewrite ?Hv, ?Hv'; try done.
    f_equal. by apply insert_insert_ne.
Qed.

(** On the example sheet after a fork: ["v1"] is active, and of the
    switches to ["v2"] then ["v1"] the second decides. *)
Lemma setVersion_composes_witness :
  currentVersions Ex.service !! Ex.T = Some Ex.v1
  ∧ final (setVersion Ex.T Ex.v1 Ex.service) = Ex.service
  ∧ outcome (setVersion Ex.T Ex.v1
               (final (addField false Ex.T Ex.f3 Ex.h3 Ex.v2 Ex.service)))
    = Return ()
  ∧ final (setVersion Ex.T Ex.v1 (final (setVersion Ex.T Ex.v2
             (final (addField false Ex.T Ex.f3 Ex.h3 Ex.v2 Ex.service)))))
    = final (setVersion Ex.T Ex.v1
               (final (addField false Ex.T Ex.f3 Ex.h3 Ex.v2 Ex.service))).
Proof.
  assert (Hv : currentVersions Ex.service !! Ex.T = Some Ex.v1) by reflexivity.
  assert (Hok : outcome (setVersion Ex.T Ex.v1
                  (final (addField false Ex.T Ex.f3 Ex.h3 Ex.v2 Ex.service)))
                = Return ()) by reflexivity.
  refine (conj Hv (conj _ (conj Hok _))).
  - exact (proj1 (setVersion_composes Ex.service Ex.T Ex.T Ex.v1 Ex.v1) Hv).
  - exact (proj1 (proj2 (setVersion_composes
             (final (addField false Ex.T Ex.f3 Ex.h3 Ex.v2 Ex.service))
             Ex.T Ex.T Ex.v2 Ex.v1)) Hok).
Defined.

(** ** Where a fork puts the field *)

(** The schema [getSchema] returns once a fork of the active schema [o] has
    been activated. *)
Lemma fork_then_activate (bus : bool) (this : Service)
    (sheetName fieldName headerName newVersion : jsstring)
    (o : list (list N * list N)) :
  outcome (getSchema sheetName this) = Return (Some o) →
  newVersion ≠ [] →
  outcome (getSchema sheetName
             (final (setVersion sheetName newVersion
                (final (addField bus sheetName fieldName headerName newVersion this)))))
  = Return (Some (Obj.set fieldName headerName (Obj.spread_into [] (Some o)))).
Proof.
  intros (v & versions & [Hv Hvne] & Hs & Hlook)%getSchema_Return_Some Hne.
  rewrite addField_final, Hs, Hv. cbn [to_key]. rewrite Hlook.
  rewrite setVersion_final, (switches_own _ _ _ _ (lookup_insert_eq _ _ _))
    by (by rewrite lookup_insert_eq).
  rewrite getSchema_run. cbn [outcome schemas currentVersions].
  rewrite !lookup_insert_eq. by destruct newVersion.
Qed.

Lemma Obj_replace_shape {V : Type} (k : list N) (v v0 : V) (o : list (list N * V)) :
  Obj.get k o = Some v0 →
  ∃ i, Obj.keys o !! i = Some k
       ∧ Obj.values o !! i = Some v0
       ∧ Obj.keys (Obj.replace k v o) = Obj.keys o
       ∧ Obj.values (Obj.replace k v o) = <[i := v]> (Obj.values o).
Proof.
  unfold Obj.keys, Obj.values.
  induction o as [|[k0 v0'] o IH]; cbn; [done|].
  destruct (decide (k0 = k)) as [->|Hne].
  - intros [= ->]. by exists 0%nat.
  - intros (i & Hk & Hv & Hkeys & Hvalues)%IH. exists (S i). cbn.
    by rewrite Hkeys, Hvalues.
Qed.

(** X9.  Where [addField] puts the header.  Fork the active schema (a
    canonical object) under a non-empty version name and activate the fork:
    when the field is new and its name is not an array index, [getHeaders]
    returns the previous headers followed by the new label; when the field
    exists, [getHeaders] returns the previous headers with the label of that
    field replaced in place. *)
Theorem addField_header_position (bus : bool) (this : Service)
    (sheetName fieldName headerName newVersion : jsstring)
    (o : list (list N * list N)) :
  outcome (getSchema sheetName this) = Return (Some o) →
  Obj.canonical o = true →
  newVersion ≠ [] →
  (Obj.get fieldName o = None → Obj.array_index fieldName = None →
     outcome (getHeaders sheetName
                (final (setVersion sheetName newVersion
                   (final (addField bus sheetName fieldName headerName newVersion this)))))
     = Return (Obj.values o ++ [headerName]))
  ∧ (∀ previous, Obj.get fieldName o = Some previous →
       ∃ i, Obj.keys o !! i = Some fieldName
            ∧ Obj.values o !! i = Some previous
            ∧ outcome (getHeaders sheetName
                         (final (setVersion sheetName newVersion
                            (final (addField bus sheetName fieldName headerName
                                      newVersion this)))))
              = Return (<[i := headerName]> (Obj.values o))).
Proof.
  intros Hschema Hcan Hne.
  pose proof (fork_then_activate bus this sheetName fieldName headerName newVersion
                o Hschema Hne) as Hfork.
  rewrite Obj_spread_copy in Hfork by done.
  rewrite getHeaders_run, Hfork. cbn [outcome]. unfold Obj.set. split.
  - intros -> ->. unfold Obj.values. by rewrite fmap_app.
  - intros previous Hget. rewrite Hget.
    destruct (Obj_replace_shape fieldName headerName previous o Hget)
      as (i & Hk & Hv & _ & Hvalues).
    exists i. by rewrite Hvalues.
Qed.

(** On the example sheet: the new field [f3] goes last, the label of the
    existing field [f1] is replaced in place. *)
Lemma addField_header_position_witness :
  outcome (getSchema Ex.T Ex.service) = Return (Some Ex.two_fields)
  ∧ Obj.canonical Ex.two_fields = true
  ∧ Ex.v2 ≠ []
  ∧ Obj.get Ex.f3 Ex.two_fields = None
  ∧ Obj.array_index Ex.f3 = None
  ∧ outcome (getHeaders Ex.T
               (final (setVersion Ex.T Ex.v2
                  (final (addField true Ex.T Ex.f3 Ex.h3 Ex.v2 Ex.service)))))
    = Return [Ex.h1; Ex.h2; Ex.h3]
  ∧ Obj.get Ex.f1 Ex.two_fields = Some Ex.h1
  ∧ outcome (getHeaders Ex.T
               (final (setVersion Ex.T Ex.v2
                  (final (addField true Ex.T Ex.f1 Ex.h3 Ex.v2 Ex.service)))))
    = Return [Ex.h3; Ex.h2].
Proof.
  assert (Hschema : outcome (getSchema Ex.T Ex.service) = Return (Some Ex.two_fields))
    by reflexivity.
  assert (Hcan : Obj.canonical Ex.two_fields = true) by reflexivity.
  assert (Hne : Ex.v2 ≠ []) by done.
  assert (Hnew : Obj.get Ex.f3 Ex.two_fields = None) by reflexivity.
  assert (Hidx : Obj.array_index Ex.f3 = None) by reflexivity.
  assert (Hold : Obj.get Ex.f1 Ex.two_fields = Some Ex.h1) by reflexivity.
  refine (conj Hschema (conj Hcan (conj Hne (conj Hnew (conj Hidx
            (conj _ (conj Hold _))))))).
  - exact (proj1 (addField_header_position true Ex.service Ex.T Ex.f3 Ex.h3 Ex.v2
                    Ex.two_fields Hschema Hcan Hne) Hnew Hidx).
  - destruct (proj2 (addField_header_position true Ex.service Ex.T Ex.f1 Ex.h3 Ex.v2
                       Ex.two_fields Hschema Hcan Hne) Ex.h1 Hold)
      as (i & Hk & _ & Hheaders).
    rewrite Hheaders. f_equal.
    destruct i as [|[|[|i]]]; [reflexivity | discriminate Hk | discriminate Hk
                              | discriminate Hk].
Defined.

(** X10.  An array-index field name is not appended: forked into a
    canonical schema, a new field whose name is an array index is enumerated
    before every field whose name is not one. *)
Theorem addField_array_index_field (bus : bool) (this : Service)
    (sheetName fieldName headerName newVersion : jsstring)
    (o : list (list N * list N)) (n : N) :
  outcome (getSchema sheetName this) = Return (Some o) →
  Obj.canonical o = true →
  newVersion ≠ [] →
  Obj.get fieldName o = None →
  Obj.array_index fieldName = Some n →
  ∃ forked before after,
    outcome (getSchema sheetName
               (final (setVersion sheetName newVersion
                  (final (addField bus sheetName fieldName headerName newVersion this)))))
    = Return (Some forked)
    ∧ forked = before ++ (fieldName, headerName) :: after
    ∧ o = before ++ after
    ∧ (∀ k, k ∈ Obj.keys before → ∃ m, Obj.array_index k = Some m ∧ (m < n)%N)
    ∧ (∀ k, k ∈ Obj.keys after → Obj.array_index k = None ∨
                                  ∃ m, Obj.array_index k = Some m ∧ (n < m)%N).
Proof.
  intros Hschema Hcan Hne Hnew Hidx.
  pose proof (fork_then_activate bus this sheetName fieldName headerName newVersion
                o Hschema Hne) as Hfork.
  rewrite Obj_spread_copy in Hfork by done.
  unfold Obj.set in Hfork. rewrite Hnew, Hidx in Hfork.
  eexists. cut (∃ before after,
    Obj.add_index n fieldName headerName o = before ++ (fieldName, headerName) :: after
    ∧ o = before ++ after
    ∧ (∀ k, k ∈ Obj.keys before → ∃ m, Obj.array_index k = Some m ∧ (m < n)%N)
    ∧ (∀ k, k ∈ Obj.keys after → Obj.array_index k = None ∨
                                  ∃ m, Obj.array_index k = Some m ∧ (n < m)%N)).
  { intros (before & after & ? & ? & ? & ?). by exists before, after. }
  clear Hfork Hschema. unfold Obj.keys.
  induction o as [|[k0 v0] o IH]; cbn.
  - exists [], []. repeat split; by intros k ?%not_elem_of_nil.
  - cbn in Hnew. destruct (decide (k0 = fieldName)) as [|Hk0]; [done|].
    cbn in Hcan. apply andb_true_iff in Hcan as [Hall Hcan].
    destruct (Obj.array_index k0) as [n0|] eqn:Hn0.
    + destruct (n0 <? n)%N eqn:Hlt.
      * destruct (IH Hcan Hnew) as (before & after & -> & -> & Hb & Ha).
        exists ((k0, v0) :: before), after. repeat split; [|done].
        intros k [-> | ?]%elem_of_cons; [|by apply Hb].
        exists n0. split; [done|]. by apply N.ltb_lt.
      * exists [], ((k0, v0) :: o). repeat split; [by intros k ?%not_elem_of_nil|].
        intros k [-> | Hin]%elem_of_cons.
        -- right. exists n0. split; [done|]. apply N.ltb_ge in Hlt.
           assert (n0 ≠ n); [|lia]. intros ->. apply Hk0. by eapply array_index_inj.
        -- apply list_elem_of_fmap in Hin as ([k' v'] & -> & Hin).
           rewrite forallb_forall in Hall.
           apply list_elem_of_In, Hall, andb_true_iff in Hin as [_ Hprec].
           cbn in *. unfold Obj.precedes in Hprec. rewrite Hn0 in Hprec.
           destruct (Obj.array_index k') as [m|]; [|by left].
           right. exists m. split; [done|]. apply N.ltb_lt in Hprec.
           apply N.ltb_ge in Hlt.
           assert (n0 ≠ n); [|lia]. intros ->. apply Hk0. by eapply array_index_inj.
    + exists [], ((k0, v0) :: o). repeat split; [by intros k ?%not_elem_of_nil|].
      intros k [-> | Hin]%elem_of_cons; [by left|].
      apply list_elem_of_fmap in Hin as ([k' v'] & -> & Hin).
      rewrite forallb_forall in Hall.
      apply list_elem_of_In, Hall, andb_true_iff in Hin as [_ Hprec].
      cbn in *. unfold Obj.precedes in Hprec. rewrite Hn0 in Hprec.
      destruct (Obj.array_index k') as [m|]; [done | by left].
Qed.

(** On the example sheet: the field named ["7"] is enumerated first. *)
Lemma addField_array_index_field_witness :
  outcome (getSchema Ex.T Ex.service) = Return (Some Ex.two_fields)
  ∧ Obj.canonical Ex.two_fields = true
  ∧ Ex.v2 ≠ []
  ∧ Obj.get (str "7") Ex.two_fields = None
  ∧ Obj.array_index (str "7") = Some 7%N
  ∧ outcome (getSchema Ex.T
               (final (setVersion Ex.T Ex.v2
                  (final (addField true Ex.T (str "7") Ex.h3 Ex.v2 Ex.service)))))
    = Return (Some [(str "7", Ex.h3); (Ex.f1, Ex.h1); (Ex.f2, Ex.h2)]).
Proof.
  assert (Hschema : outcome (getSchema Ex.T Ex.service) = Return (Some Ex.two_fields))
    by reflexivity.
  assert (Hcan : Obj.canonical Ex.two_fields = true) by reflexivity.
  assert (Hne : Ex.v2 ≠ []) by done.
  assert (Hnew : Obj.get (str "7") Ex.two_fields = None) by reflexivity.
  assert (Hidx : Obj.array_index (str "7") = Some 7%N) by reflexivity.
  refine (conj Hschema (conj Hcan (conj Hne (conj Hnew (conj Hidx _))))).
  destruct (addField_array_index_field true Ex.service Ex.T (str "7") Ex.h3 Ex.v2
              Ex.two_fields 7 Hschema Hcan Hne Hnew Hidx)
    as (forked & before & after & Hfork & _).
  reflexivity.
Defined.

(** ** Sequences of calls *)

Lemma perform_call_schemas (bus : bool) (c : call) (this : Service)
    (sheetName : jsstring) :
  match schemas this !! sheetName with
  | Some versions =>
      ∃ versions',
        schemas (final (perform_call bus c this)) !! sheetName = Some versions'
        ∧ dom versions ⊆ dom versions'
  | None => schemas (final (perform_call bus c this)) !! sheetName = None
  end.
Proof.
  destruct c as [sheet field header version | sheet version]; cbn [perform_call].
  - rewrite addField_final.
    destruct (schemas this !! sheet) as [versions0|] eqn:Hsheet.
    + cbn [schemas]. destruct (decide (sheet = sheetName)) as [<-|Hne].
      * rewrite Hsheet, lookup_insert_eq. eexists. split; [done|].
        rewrite dom_insert. apply union_subseteq_r.
      * rewrite lookup_insert_ne by done.
        destruct (schemas this !! sheetName) as [versions|]; [|done]. by exists versions.
    + destruct (schemas this !! sheetName) as [versions|]; [|done]. by exists versions.
  - rewrite setVersion_schemas.
    destruct (schemas this !! sheetName) as [versions|]; [|done]. by exists versions.
Qed.

Lemma perform_call_invariant (bus : bool) (c : call) (this : Service) :
  plain_call c →
  registry_invariant this → registry_invariant (final (perform_call bus c this)).
Proof.
  intros Hplain Hinv sheet' Hmentioned.
  destruct c as [sheet field header version | sheet version]; cbn [perform_call] in *.
  - apply addField_keeps_active_version, Hinv.
    destruct (addField_mentions bus this sheet field header version sheet') as [Hs Hc].
    rewrite Hc in Hmentioned. by rewrite Hs in Hmentioned.
  - destruct Hplain as [_ Hplain].
    destruct (decide (sheet = sheet')) as [<-|Hne];
      destruct (outcome (setVersion sheet version this)) as [[]|e] eqn:Hout.
    + by apply setVersion_activates.
    + apply setVersion_keeps_active_version, Hinv; [done|].
      revert Hmentioned Hout. rewrite setVersion_final, setVersion_outcome.
      by destruct (switches this sheet version).
    + apply setVersion_keeps_active_version, Hinv; [done|].
      revert Hmentioned. rewrite setVersion_final.
      destruct (switches this sheet version); [|done].
      cbn. by rewrite lookup_insert_ne.
    + apply setVersion_keeps_active_version, Hinv; [done|].
      revert Hmentioned Hout. rewrite setVersion_final, setVersion_outcome.
      by destruct (switches this sheet version).
Qed.

(** X11.  Nothing is ever deleted and no sheet is ever created: after any
    sequence of [addField] and [setVersion] calls, failing ones included, the
    registry knows exactly the sheets it knew, and every version a sheet had
    is still in its version set. *)
Theorem calls_never_delete (bus : bool) (calls : list call) (this : Service)
    (sheetName : jsstring) :
  (schemas this !! sheetName = None ↔
     schemas (after_calls bus calls this) !! sheetName = None)
  ∧ (∀ versions v,
       schemas this !! sheetName = Some versions →
       is_Some (versions !! v) →
       ∃ versions',
         schemas (after_calls bus calls this) !! sheetName = Some versions'
         ∧ is_Some (versions' !! v)).
Proof.
  unfold after_calls. revert this.
  induction calls as [|c calls IH]; intros this; cbn [foldl].
  - split; [done|]. intros versions v Hs Hv. by exists versions.
  - destruct (IH (final (perform_call bus c this))) as [IHnone IHsome].
    pose proof (perform_call_schemas bus c this sheetName) as Hstep.
    destruct (schemas this !! sheetName) as [versions|] eqn:Hs.
    + destruct Hstep as (versions' & Hs' & Hsub). split.
      * split; [done|]. intros Hnone%IHnone. by rewrite Hs' in Hnone.
      * intros ? v [= <-] Hv. apply (IHsome versions' v Hs').
        apply elem_of_dom, Hsub, elem_of_dom, Hv.
    + split; [|done]. split; [intros _; by apply IHnone | done].
Qed.

(** On the example sheet: after a fork, a failing switch and a switch,
    version ["v1"] is still there. *)
Lemma calls_never_delete_witness :
  schemas Ex.service !! Ex.T = Some {[ Ex.v1 := Ex.two_fields ]}
  ∧ is_Some (({[ Ex.v1 := Ex.two_fields ]}
                : gmap (list N) (list (list N * list N))) !! Ex.v1)
  ∧ ∃ versions',
      schemas (after_calls true
                 [AddField Ex.T Ex.f3 Ex.h3 Ex.v2; SetVersion Ex.T Ex.h1;
                  SetVersion Ex.T Ex.v2] Ex.service) !! Ex.T = Some versions'
      ∧ is_Some (versions' !! Ex.v1).
Proof.
  assert (Hs : schemas Ex.service !! Ex.T = Some {[ Ex.v1 := Ex.two_fields ]})
    by reflexivity.
  assert (Hv : is_Some (({[ Ex.v1 := Ex.two_fields ]}
                           : gmap (list N) (list (list N * list N))) !! Ex.v1))
    by (by eexists).
  exact (conj Hs (conj Hv
           (proj2 (calls_never_delete true
                     [AddField Ex.T Ex.f3 Ex.h3 Ex.v2; SetVersion Ex.T Ex.h1;
                      SetVersion Ex.T Ex.v2] Ex.service Ex.T) _ _ Hs Hv))).
Defined.

(** X12.  From a registry in which every pointer names an existing
    version, no sequence of [addField] and [setVersion] calls whose sheet and
    version identifiers are names no plain object inherits reaches a state
    where [getSchema] returns [undefined]: the invariant still holds, and on
    every sheet with such a name [getSchema] throws the not-found error or
    returns a schema and [getHeaders] never throws a TypeError. *)
Theorem calls_keep_pointers_valid (bus : bool) (calls : list call) (this : Service)
    (sheetName : jsstring) :
  registry_invariant this →
  Forall plain_call calls →
  plain_name sheetName →
  registry_invariant (after_calls bus calls this)
  ∧ outcome (getSchema sheetName (after_calls bus calls this)) ≠ Return None
  ∧ outcome (getHeaders sheetName (after_calls bus calls this)) ≠ Throw TypeError.
Proof.
  intros Hinv Hplain _.
  assert (Hafter : registry_invariant (after_calls bus calls this)).
  { unfold after_calls. revert this Hinv.
    induction Hplain as [|c calls Hc Hcalls IH]; intros this Hinv; cbn [foldl];
      [done|].
    by apply IH, perform_call_invariant. }
  split; [done|].
  assert (Hnone : outcome (getSchema sheetName (after_calls bus calls this))
                  ≠ Return None).
  { intros (v & versions & [Hv _] & Hs & Hlook)%getSchema_dangling.
    destruct (Hafter sheetName) as (v' & versions' & Hv' & Hs' & Hin);
      [left; by eexists|].
    rewrite Hv in Hv'. injection Hv' as <-. rewrite Hs in Hs'. injection Hs' as <-.
    rewrite Hlook in Hin. by destruct Hin. }
  split; [done|].
  rewrite getHeaders_run. cbn [outcome].
  destruct (outcome (getSchema sheetName (after_calls bus calls this)))
    as [[o|]|e] eqn:Hout; [done | done |].
  revert Hout. rewrite getSchema_run. cbn [outcome].
  destruct (schemas (after_calls bus calls this) !! sheetName) as [versions|];
    [|by intros [= <-]].
  destruct (truthy (currentVersions (after_calls bus calls this) !! sheetName));
    [done | by intros [= <-]].
Qed.

(** On the example service, after a fork and its activation. *)
Lemma calls_keep_pointers_valid_witness :
  registry_invariant Ex.service
  ∧ Forall plain_call [AddField Ex.T Ex.f3 Ex.h3 Ex.v2; SetVersion Ex.T Ex.v2]
  ∧ plain_name Ex.T
  ∧ registry_invariant
      (after_calls true [AddField Ex.T Ex.f3 Ex.h3 Ex.v2; SetVersion Ex.T Ex.v2]
         Ex.service)
  ∧ outcome (getHeaders Ex.T
               (after_calls true [AddField Ex.T Ex.f3 Ex.h3 Ex.v2; SetVersion Ex.T Ex.v2]
                  Ex.service))
    ≠ Throw TypeError.
Proof.
  assert (HT : plain_name Ex.T) by (apply (bool_decide_unpack _); vm_compute; exact I).
  assert (Hv2 : plain_name Ex.v2) by (apply (bool_decide_unpack _); vm_compute; exact I).
  assert (Hcalls : Forall plain_call
                     [AddField Ex.T Ex.f3 Ex.h3 Ex.v2; SetVersion Ex.T Ex.v2])
    by (repeat constructor; done).
  refine (conj example_service_invariant (conj Hcalls (conj HT _))).
  destruct (calls_keep_pointers_valid true
              [AddField Ex.T Ex.f3 Ex.h3 Ex.v2; SetVersion Ex.T Ex.v2]
              Ex.service Ex.T example_service_invariant Hcalls HT)
    as (Hinv & _ & Hheaders).
  exact (conj Hinv Hheaders).
Defined.

(** ** The registry as shipped, continued *)

(** X13.  With three distinct sheet names, the object literal satisfies the
    active-version invariant exactly when every version constant of the
    configuration is ["v1"], the only version the literal defines; a sheet
    configured with another non-empty constant (a name that no plain object
    inherits) makes [getHeaders] throw a TypeError. *)
Theorem SchemaService_needs_v1 (CONFIG : Config) :
  SHEET_NAME CONFIG ≠ DAILY_SHEET CONFIG →
  SHEET_NAME CONFIG ≠ BEHAVIOR_SHEET CONFIG →
  DAILY_SHEET CONFIG ≠ BEHAVIOR_SHEET CONFIG →
  (registry_invariant (SchemaService CONFIG) ↔
     MetaLog CONFIG = str "v1"
     ∧ DailyReport CONFIG = str "v1"
     ∧ BehaviorScores CONFIG = str "v1")
  ∧ (DailyReport CONFIG ≠ str "v1" → DailyReport CONFIG ≠ [] →
       plain_name (DailyReport CONFIG) →
       outcome (getHeaders (DAILY_SHEET CONFIG) (SchemaService CONFIG))
       = Throw TypeError).
Proof.
  intros Hsd Hsb Hdb.
  assert (Hlook : ∀ (A : Type) (x y z : A),
    (<[BEHAVIOR_SHEET CONFIG := z]>
       (<[DAILY_SHEET CONFIG := y]>
          (<[SHEET_NAME CONFIG := x]> (∅ : gmap (list N) A)))
       !! SHEET_NAME CONFIG = Some x)
    ∧ (<[BEHAVIOR_SHEET CONFIG := z]>
         (<[DAILY_SHEET CONFIG := y]>
            (<[SHEET_NAME CONFIG := x]> (∅ : gmap (list N) A)))
         !! DAILY_SHEET CONFIG = Some y)
    ∧ (<[BEHAVIOR_SHEET CONFIG := z]>
         (<[DAILY_SHEET CONFIG := y]>
            (<[SHEET_NAME CONFIG := x]> (∅ : gmap (list N) A)))
         !! BEHAVIOR_SHEET CONFIG = Some z)).
  { intros A x y z. split; [|split].
    - by rewrite !lookup_insert_ne, lookup_insert_eq by done.
    - by rewrite lookup_insert_ne, lookup_insert_eq by done.
    - by rewrite lookup_insert_eq. }
  assert (Hversion : ∀ sheet constant (s : list (list N * list N)),
    schemas (SchemaService CONFIG) !! sheet = Some {[ str "v1" := s ]} →
    currentVersions (SchemaService CONFIG) !! sheet = Some constant →
    active_version_exists (SchemaService CONFIG) sheet → constant = str "v1").
  { intros sheet constant s Hs Hc (v & versions & Hv & Hs' & Hin).
    rewrite Hc in Hv. injection Hv as <-. rewrite Hs in Hs'. injection Hs' as <-.
    destruct (decide (constant = str "v1")) as [|Hne]; [done|].
    rewrite lookup_singleton_ne in Hin by done. by destruct Hin. }
  split.
  - split; [|by intros (? & ? & ?); apply SchemaService_invariant].
    intros Hinv. split; [|split].
    + eapply (Hversion (SHEET_NAME CONFIG)); [apply Hlook | apply Hlook |].
      apply Hinv. left. eexists. apply Hlook.
    + eapply (Hversion (DAILY_SHEET CONFIG)); [apply Hlook | apply Hlook |].
      apply Hinv. left. eexists. apply Hlook.
    + eapply (Hversion (BEHAVIOR_SHEET CONFIG)); [apply Hlook | apply Hlook |].
      apply Hinv. left. eexists. apply Hlook.
  - intros Hne Hnonempty _. rewrite getHeaders_run, getSchema_run. cbn [outcome].
    destruct (Hlook _ ({[ str "v1" := metaLog_v1 ]} : gmap (list N) _)
                ({[ str "v1" := dailyReport_v1 ]} : gmap (list N) _)
                ({[ str "v1" := behaviorScores_v1 ]} : gmap (list N) _))
      as (_ & Hs & _).
    destruct (Hlook _ (MetaLog CONFIG) (DailyReport CONFIG) (BehaviorScores CONFIG))
      as (_ & Hc & _).
    cbn [SchemaService schemas currentVersions]. rewrite Hs, Hc.
    destruct (DailyReport CONFIG) as [|c v] eqn:Hd; [done|]. cbn [truthy to_key].
    by rewrite lookup_singleton_ne.
Qed.

(** On the example configuration with the daily report set to ["v2"]. *)
Lemma SchemaService_needs_v1_witness :
  str "MetaLog" ≠ str "DailyReport"
  ∧ str "MetaLog" ≠ str "BehaviorScores"
  ∧ str "DailyReport" ≠ str "BehaviorScores"
  ∧ str "v2" ≠ str "v1"
  ∧ str "v2" ≠ []
  ∧ plain_name (str "v2")
  ∧ outcome (getHeaders (str "DailyReport")
               (SchemaService {| SHEET_NAME := str "MetaLog";
                                 DAILY_SHEET := str "DailyReport";
                                 BEHAVIOR_SHEET := str "BehaviorScores";
                                 MetaLog := str "v1";
                                 DailyReport := str "v2";
                                 BehaviorScores := str "v1" |}))
    = Throw TypeError.
Proof.
  assert (H1 : str "MetaLog" ≠ str "DailyReport") by done.
  assert (H2 : str "MetaLog" ≠ str "BehaviorScores") by done.
  assert (H3 : str "DailyReport" ≠ str "BehaviorScores") by done.
  assert (H4 : str "v2" ≠ str "v1") by done.
  assert (H5 : str "v2" ≠ []) by done.
  assert (H6 : plain_name (str "v2"))
    by (apply (bool_decide_unpack _); vm_compute; exact I).
  refine (conj H1 (conj H2 (conj H3 (conj H4 (conj H5 (conj H6 _)))))).
  exact (proj2 (SchemaService_needs_v1
                  {| SHEET_NAME := str "MetaLog";
                     DAILY_SHEET := str "DailyReport";
                     BEHAVIOR_SHEET := str "BehaviorScores";
                     MetaLog := str "v1";
                     DailyReport := str "v2";
                     BehaviorScores := str "v1" |} H1 H2 H3) H4 H5 H6).
Defined.

(** ** Decoding a row, continued *)

Lemma field_of_label_NoDup (o : list (list N * list N)) (header field : jsstring) :
  NoDup (Obj.values o) →
  field_of_label o header field ↔ (field, header) ∈ o.
Proof.
  intros Hnodup. split; [apply field_of_label_elem|].
  intros (before & after & ->)%list_elem_of_split.
  exists before, after. split; [done|].
  unfold Obj.values in Hnodup. rewrite fmap_app in Hnodup.
  apply NoDup_app in Hnodup as (_ & _ & Hafter). by apply NoDup_cons in Hafter as [? _].
Qed.

Lemma Obj_get_NoDup {V : Type} (o : list (list N * V)) (k : list N) (v : V) :
  NoDup (Obj.keys o) → Obj.get k o = Some v ↔ (k, v) ∈ o.
Proof.
  intros Hnodup. split; [apply Obj_get_Some_elem|].
  unfold Obj.keys in Hnodup. induction o as [|[k0 v0] o IH]; cbn.
  - by intros ?%not_elem_of_nil.
  - cbn in Hnodup. apply NoDup_cons in Hnodup as [Hk0 Hnodup].
    destruct (decide (k0 = k)) as [->|Hne].
    + intros [[= ->] | Hin]%elem_of_cons; [done|].
      destruct Hk0. apply list_elem_of_fmap. by exists (k, v).
    + intros [[= ? ?] | Hin]%elem_of_cons; [done | by apply IH].
Qed.

(** X14.  For a schema in which no field name and no header label occurs
    twice, the reverse lookup inverts the schema: for a header other than
    ["__proto__"] (a label that the assignment [reverse[header] = field]
    does not store), it gives [field] for [header] exactly when the schema
    gives [header] for [field]. *)
Theorem reverse_schema_inverts (o : list (list N * list N)) (field header : jsstring) :
  NoDup (Obj.keys o) →
  NoDup (Obj.values o) →
  header ≠ str "__proto__" →
  _getReverseSchema (Some o) !! header = Some field ↔ Obj.get field o = Some header.
Proof.
  intros Hkeys Hvalues Hproto.
  by rewrite reverse_lookup, field_of_label_NoDup, Obj_get_NoDup.
Qed.

Lemma shipped_schemas_NoDup :
  (NoDup (Obj.keys metaLog_v1) ∧ NoDup (Obj.values metaLog_v1))
  ∧ (NoDup (Obj.keys dailyReport_v1) ∧ NoDup (Obj.values dailyReport_v1))
  ∧ (NoDup (Obj.keys behaviorScores_v1) ∧ NoDup (Obj.values behaviorScores_v1)).
Proof.
  repeat split;
    (apply (bool_decide_unpack _); by vm_compute).
Qed.

(** On the behaviour-score schema of the object literal. *)
Lemma reverse_schema_inverts_witness :
  NoDup (Obj.keys behaviorScores_v1)
  ∧ NoDup (Obj.values behaviorScores_v1)
  ∧ str "Last Updated" ≠ str "__proto__"
  ∧ (_getReverseSchema (Some behaviorScores_v1) !! str "Last Updated"
       = Some (str "lastUpdated") ↔
     Obj.get (str "lastUpdated") behaviorScores_v1 = Some (str "Last Updated")).
Proof.
  destruct shipped_schemas_NoDup as (_ & _ & Hk & Hv).
  assert (Hne : str "Last Updated" ≠ str "__proto__") by (by vm_compute).
  exact (conj Hk (conj Hv (conj Hne
           (reverse_schema_inverts behaviorScores_v1
              (str "lastUpdated") (str "Last Updated") Hk Hv Hne)))).
Defined.

Lemma element_defined (rowData : list jsval) (i : nat) (v : jsval) :
  element rowData i = v → v ≠ JUndefined → rowData !! i = Some v.
Proof.
  unfold element. destruct (rowData !! i) as [w|]; cbn; [by intros -> | congruence].
Qed.

(** X15.  [mapRowToObject] invents nothing.  For an active schema with no
    field and no label named ["__proto__"] and actual headers whose trimmed
    forms are labels of the schema or names that no plain object inherits:
    every field of the mapping it returns is a non-empty field name of the
    active schema, and its value is a value of the row other than
    [undefined], found at a position whose trimmed header is the label of
    that field. *)
Theorem mapRowToObject_invents_nothing (this : Service) (sheetName : jsstring)
    (o : list (list N * list N)) (headers : list jsstring) (rowData : list jsval)
    (mapped : gmap (list N) jsval) (field : jsstring) (v : jsval) :
  outcome (getSchema sheetName this) = Return (Some o) →
  plain_schema o →
  decodable o headers →
  outcome (mapRowToObject sheetName headers rowData this) = Return mapped →
  mapped !! field = Some v →
  field ≠ [] ∧ v ≠ JUndefined
  ∧ ∃ i header,
      headers !! i = Some header
      ∧ rowData !! i = Some v
      ∧ (field, trim header) ∈ o.
Proof.
  intros Hschema Hplain Hdec. rewrite (mapRowToObject_outcome _ _ _ _ _ Hschema).
  intros [= <-] (i & (header & Hi & Hlabel & Hne & Hv & Hdef) & _)%mapped_lookup;
    [|done..].
  split; [done|]. split; [done|]. exists i, header.
  split; [done|]. split; [by apply element_defined | by apply field_of_label_elem].
Qed.

(** On the example sheet, for a row with an unknown header. *)
Lemma mapRowToObject_invents_nothing_witness :
  outcome (getSchema Ex.T Ex.service) = Return (Some Ex.two_fields)
  ∧ plain_schema Ex.two_fields
  ∧ decodable Ex.two_fields [str "zz"; str " h2 "]
  ∧ outcome (mapRowToObject Ex.T [str "zz"; str " h2 "] [JNum 1; JNum 2] Ex.service)
    = Return {[ Ex.f2 := JNum 2 ]}
  ∧ ({[ Ex.f2 := JNum 2 ]} : gmap (list N) jsval) !! Ex.f2 = Some (JNum 2)
  ∧ Ex.f2 ≠ [] ∧ JNum 2 ≠ JUndefined.
Proof.
  assert (Hschema : outcome (getSchema Ex.T Ex.service) = Return (Some Ex.two_fields))
    by reflexivity.
  assert (Hmap : outcome (mapRowToObject Ex.T [str "zz"; str " h2 "] [JNum 1; JNum 2]
                            Ex.service) = Return {[ Ex.f2 := JNum 2 ]})
    by (by vm_compute).
  assert (Hlook : ({[ Ex.f2 := JNum 2 ]} : gmap (list N) jsval) !! Ex.f2
                  = Some (JNum 2)) by reflexivity.
  assert (Hplain : plain_schema Ex.two_fields)
    by (split; apply (bool_decide_unpack _); vm_compute; exact I).
  assert (Hdec : decodable Ex.two_fields [str "zz"; str " h2 "])
    by (apply decodable_Forall; apply (bool_decide_unpack _); vm_compute; exact I).
  destruct (mapRowToObject_invents_nothing Ex.service Ex.T Ex.two_fields
              [str "zz"; str " h2 "] [JNum 1; JNum 2] _ Ex.f2 (JNum 2)
              Hschema Hplain Hdec Hmap Hlook) as (Hne & Hdef & _).
  exact (conj Hschema (conj Hplain (conj Hdec (conj Hmap (conj Hlook (conj Hne Hdef)))))).
Defined.

(** X16.  Round trip through the canonical header row.  For an active
    schema in which no field name and no header label occurs twice, no label
    carries surrounding whitespace, no field is named by the empty string
    and no field or label is named ["__proto__"], decoding a row under [getHeaders(table)] gives the field at
    position [i] of the schema the value [rowValues[i]], or no value when
    [rowValues[i]] is [undefined] or missing; the mapping has no other
    field. *)
Theorem row_round_trip (this : Service) (sheetName : jsstring)
    (o : list (list N * list N)) (rowData : list jsval) :
  outcome (getSchema sheetName this) = Return (Some o) →
  NoDup (Obj.keys o) →
  NoDup (Obj.values o) →
  (∀ label, label ∈ Obj.values o → trim label = label) →
  [] ∉ Obj.keys o →
  plain_schema o →
  ∃ headers mapped,
    outcome (getHeaders sheetName this) = Return headers
    ∧ outcome (mapRowToObject sheetName headers rowData this) = Return mapped
    ∧ (∀ i field label,
         o !! i = Some (field, label) →
         mapped !! field
         = if is_defined (element rowData i) then Some (element rowData i) else None)
    ∧ (∀ field, is_Some (mapped !! field) → field ∈ Obj.keys o).
Proof.
  intros Hschema Hkeys Hvalues Htrim Hnonempty Hplain.
  assert (Hdec : decodable o (Obj.values o)) by (by apply decodable_labels).
  exists (Obj.values o). eexists.
  split; [by rewrite getHeaders_run, Hschema|].
  split; [by apply mapRowToObject_outcome|].
  assert (Hat : ∀ j field v,
    assigns o (Obj.values o) rowData j field v →
    ∃ label, o !! j = Some (field, label) ∧ element rowData j = v ∧ v ≠ JUndefined).
  { intros j field v (header & Hj & Hlabel & _ & Hv & Hdef).
    unfold Obj.values in Hj. rewrite list_lookup_fmap in Hj.
    destruct (o !! j) as [[f' l']|] eqn:Hoj; [|done]. cbn in Hj. injection Hj as <-.
    assert (Hl' : l' ∈ Obj.values o).
    { unfold Obj.values. apply list_elem_of_fmap. exists (f', l').
      split; [done | by eapply list_elem_of_lookup_2]. }
    rewrite (Htrim _ Hl') in Hlabel.
    assert (field = f') as ->.
    { eapply field_of_label_unique; [exact Hlabel|].
      apply field_of_label_NoDup; [done|]. by eapply list_elem_of_lookup_2. }
    by exists l'. }
  split.
  - intros i field label Hi.
    assert (Hin : (field, label) ∈ o) by (by eapply list_elem_of_lookup_2).
    assert (Hunique : ∀ j label', o !! j = Some (field, label') → j = i).
    { intros j label' Hj. apply (NoDup_lookup (Obj.keys o) j i field); [done| |];
        unfold Obj.keys; rewrite list_lookup_fmap; [by rewrite Hj | by rewrite Hi]. }
    destruct (is_defined (element rowData i)) eqn:Hdef.
    + apply mapped_lookup; [done..|]. exists i. split.
      * exists label. unfold Obj.values. rewrite list_lookup_fmap, Hi. cbn.
        split; [done|]. split.
        -- rewrite Htrim; [by apply field_of_label_NoDup|].
           unfold Obj.values. apply list_elem_of_fmap. by exists (field, label).
        -- split; [|split; [done | by apply is_defined_true]].
           intros ->. apply Hnonempty. unfold Obj.keys. apply list_elem_of_fmap.
           by exists ([], label).
      * intros j v' Hlt (label' & Hj & _)%Hat. apply Hunique in Hj. lia.
    + apply eq_None_not_Some. intros [v Hsome].
      apply mapped_lookup in Hsome as (j & Hassign & _); [|done..].
      apply Hat in Hassign as (label' & Hj & Hv & Hvdef).
      apply Hunique in Hj as ->. subst v. apply is_defined_true in Hvdef. congruence.
  - intros field [v Hsome].
    apply mapped_lookup in Hsome as (j & Hassign & _); [|done..].
    apply Hat in Hassign as (label & Hj & _).
    unfold Obj.keys. apply list_elem_of_fmap. exists (field, label).
    split; [done | by eapply list_elem_of_lookup_2].
Qed.

Lemma behaviorScores_labels_trimmed :
  ∀ label, label ∈ Obj.values behaviorScores_v1 → trim label = label.
Proof. apply Forall_forall, (bool_decide_unpack _). by vm_compute. Qed.

(** On the behaviour-score sheet of the example registry, with a row whose
    third cell is [undefined]. *)
Lemma row_round_trip_witness :
  outcome (getSchema (str "BehaviorScores") example_registry)
  = Return (Some behaviorScores_v1)
  ∧ NoDup (Obj.keys behaviorScores_v1)
  ∧ NoDup (Obj.values behaviorScores_v1)
  ∧ (∀ label, label ∈ Obj.values behaviorScores_v1 → trim label = label)
  ∧ ([] ∉ Obj.keys behaviorScores_v1)
  ∧ plain_schema behaviorScores_v1
  ∧ ∃ headers mapped,
      outcome (getHeaders (str "BehaviorScores") example_registry) = Return headers
      ∧ outcome (mapRowToObject (str "BehaviorScores") headers
                   [JStr (str "run"); JNum 2; JUndefined] example_registry)
        = Return mapped
      ∧ (∀ i field label,
           behaviorScores_v1 !! i = Some (field, label) →
           mapped !! field
           = if is_defined (element [JStr (str "run"); JNum 2; JUndefined] i)
             then Some (element [JStr (str "run"); JNum 2; JUndefined] i)
             else None)
      ∧ (∀ field, is_Some (mapped !! field) → field ∈ Obj.keys behaviorScores_v1).
Proof.
  assert (Hschema : outcome (getSchema (str "BehaviorScores") example_registry)
                    = Return (Some behaviorScores_v1)) by reflexivity.
  destruct shipped_schemas_NoDup as (_ & _ & Hk & Hv).
  assert (Hne : [] ∉ Obj.keys behaviorScores_v1)
    by (apply (bool_decide_unpack _); by vm_compute).
  assert (Hplain : plain_schema behaviorScores_v1)
    by (split; apply (bool_decide_unpack _); vm_compute; exact I).
  exact (conj Hschema (conj Hk (conj Hv (conj behaviorScores_labels_trimmed (conj Hne
           (conj Hplain
              (row_round_trip example_registry (str "BehaviorScores") behaviorScores_v1
                 [JStr (str "run"); JNum 2; JUndefined]
                 Hschema Hk Hv behaviorScores_labels_trimmed Hne Hplain))))))).
Defined.

Lemma forEach_from_beyond_row (reverseSchema : gmap (list N) (list N))
    (rowData : list jsval) (headers : list jsstring) (i : nat)
    (mappedData : row_object) :
  (length rowData ≤ i)%nat →
  forEach_from (mapRowToObject_each reverseSchema rowData) i headers mappedData
  = mappedData.
Proof.
  revert i mappedData.
  induction headers as [|x headers IH]; intros i mappedData Hi; cbn; [done|].
  rewrite IH by lia. unfold mapRowToObject_each, element.
  rewrite lookup_ge_None_2 by done. cbn. by rewrite andb_false_r.
Qed.

Lemma forEach_from_take_headers (reverseSchema : gmap (list N) (list N))
    (rowData : list jsval) (headers : list jsstring) (i : nat)
    (mappedData : row_object) :
  forEach_from (mapRowToObject_each reverseSchema rowData) i
    (take (length rowData - i) headers) mappedData
  = forEach_from (mapRowToObject_each reverseSchema rowData) i headers mappedData.
Proof.
  revert i mappedData. induction headers as [|x headers IH]; intros i m.
  - by rewrite take_nil.
  - destruct (decide (length rowData ≤ i)%nat) as [Hle|Hgt].
    + replace (length rowData - i)%nat with 0%nat by lia. cbn [take].
      by rewrite !forEach_from_beyond_row by done.
    + replace (length rowData - i)%nat with (S (length rowData - S i)) by lia.
      cbn [take forEach_from]. apply IH.
Qed.

Lemma forEach_from_take_row (reverseSchema : gmap (list N) (list N))
    (rowData : list jsval) (headers : list jsstring) (i : nat)
    (mappedData : row_object) :
  forEach_from (mapRowToObject_each reverseSchema (take (i + length headers) rowData))
    i headers mappedData
  = forEach_from (mapRowToObject_each reverseSchema rowData) i headers mappedData.
Proof.
  revert i mappedData. induction headers as [|x headers IH]; intros i m; cbn; [done|].
  replace (i + S (length headers))%nat with (S i + length headers)%nat by lia.
  rewrite IH. f_equal. unfold mapRowToObject_each, element.
  by rewrite lookup_take_lt by lia.
Qed.

(** X17.  Only the positions that headers and row share count: headers
    beyond the end of the row are skipped and row values beyond the last
    header are ignored, so [mapRowToObject] gives the same outcome on the
    headers cut to the length of the row and on the row cut to the number of
    headers. *)
Theorem mapRowToObject_common_positions (this : Service) (sheetName : jsstring)
    (headers : list jsstring) (rowData : list jsval) :
  outcome (mapRowToObject sheetName (take (length rowData) headers) rowData this)
  = outcome (mapRowToObject sheetName headers rowData this)
  ∧ outcome (mapRowToObject sheetName headers (take (length headers) rowData) this)
    = outcome (mapRowToObject sheetName headers rowData this).
Proof.
  rewrite !mapRowToObject_run. cbn [outcome].
  destruct (outcome (getSchema sheetName this)) as [s|e]; [|done].
  unfold forEach. split; do 2 f_equal.
  - pose proof (forEach_from_take_headers (_getReverseSchema s) rowData headers 0
                  empty_object) as H.
    by rewrite Nat.sub_0_r in H.
  - apply (forEach_from_take_row (_getReverseSchema s) rowData headers 0 empty_object).
Qed.

(** X18.  A forked field can be decoded once the fork is active, and it
    takes its label over.  Fork a canonical active schema with a new field
    (non-empty name, not an array index) under a non-empty version name and
    activate the fork, the field, the label and the version being named
    other than ["__proto__"]: an actual header whose trimmed form is the new
    label then maps to the new field, also when an older field carried that
    label; an older field whose only label is the new label is never decoded
    again (no field and no label named ["__proto__"], the actual headers
    being labels of the fork or names that no plain object inherits). *)
Theorem forked_field_takes_its_label (bus : bool) (this : Service)
    (sheetName fieldName headerName newVersion : jsstring)
    (o : list (list N * list N)) :
  outcome (getSchema sheetName this) = Return (Some o) →
  Obj.canonical o = true →
  newVersion ≠ [] →
  Obj.get fieldName o = None →
  Obj.array_index fieldName = None →
  fieldName ≠ [] →
  fieldName ≠ str "__proto__" →
  headerName ≠ str "__proto__" →
  newVersion ≠ str "__proto__" →
  (∀ actual v,
     trim actual = headerName → v ≠ JUndefined →
     outcome (mapRowToObject sheetName [actual] [v]
                (final (setVersion sheetName newVersion
                   (final (addField bus sheetName fieldName headerName newVersion this)))))
     = Return {[ fieldName := v ]})
  ∧ (∀ older headers rowData mapped,
       plain_schema o →
       decodable (o ++ [(fieldName, headerName)]) headers →
       (older, headerName) ∈ o →
       (∀ label, (older, label) ∈ o → label = headerName) →
       outcome (mapRowToObject sheetName headers rowData
                  (final (setVersion sheetName newVersion
                     (final (addField bus sheetName fieldName headerName newVersion this)))))
       = Return mapped →
       mapped !! older = None).
Proof.
  intros Hschema Hcan Hne Hnew Hidx Hfield Hfproto Hhproto _.
  pose proof (fork_then_activate bus this sheetName fieldName headerName newVersion
                o Hschema Hne) as Hfork.
  rewrite Obj_spread_copy in Hfork by done.
  unfold Obj.set in Hfork. rewrite Hnew, Hidx in Hfork.
  assert (Hlast : field_of_label (o ++ [(fieldName, headerName)]) headerName fieldName).
  { exists o, []. split; [done | apply not_elem_of_nil]. }
  split.
  - intros actual v Htrim Hv.
    rewrite (mapRowToObject_outcome _ _ _ _ _ Hfork). f_equal.
    apply one_header_decoded; by rewrite ?Htrim.
  - intros older headers rowData mapped [Hkeys Hvalues] Hdec Hin Honly.
    rewrite (mapRowToObject_outcome _ _ _ _ _ Hfork). intros [= <-].
    apply eq_None_not_Some. intros [v Hv].
    assert (Hplain : plain_schema (o ++ [(fieldName, headerName)])).
    { unfold plain_schema, Obj.keys, Obj.values. rewrite !fmap_app, !not_elem_of_app.
      cbn. rewrite !list_elem_of_singleton. by repeat split. }
    apply mapped_lookup in Hv as (i & (header & _ & Hlabel & _) & _); [|done..].
    assert (Hdiff : older ≠ fieldName).
    { intros ->. apply Obj_get_None_keys in Hnew. apply Hnew.
      unfold Obj.keys. apply list_elem_of_fmap. by exists (fieldName, headerName). }
    apply field_of_label_elem in Hlabel as Hmember.
    apply elem_of_app in Hmember as [Hmember | [= ? ?]%list_elem_of_singleton];
      [|done].
    apply Honly in Hmember. rewrite Hmember in Hlabel.
    apply Hdiff. by eapply field_of_label_unique.
Qed.

(** On the example sheet: [f3] is forked with the label ["h1"] of [f1]. *)
Lemma forked_field_takes_its_label_witness :
  outcome (getSchema Ex.T Ex.service) = Return (Some Ex.two_fields)
  ∧ Obj.canonical Ex.two_fields = true
  ∧ Ex.v2 ≠ []
  ∧ Obj.get Ex.f3 Ex.two_fields = None
  ∧ Obj.array_index Ex.f3 = None
  ∧ Ex.f3 ≠ []
  ∧ Ex.f3 ≠ str "__proto__"
  ∧ Ex.h1 ≠ str "__proto__"
  ∧ Ex.v2 ≠ str "__proto__"
  ∧ trim (str " h1") = Ex.h1
  ∧ JNum 5 ≠ JUndefined
  ∧ outcome (mapRowToObject Ex.T [str " h1"] [JNum 5]
               (final (setVersion Ex.T Ex.v2
                  (final (addField true Ex.T Ex.f3 Ex.h1 Ex.v2 Ex.service)))))
    = Return {[ Ex.f3 := JNum 5 ]}.
Proof.
  assert (Hschema : outcome (getSchema Ex.T Ex.service) = Return (Some Ex.two_fields))
    by reflexivity.
  assert (Hcan : Obj.canonical Ex.two_fields = true) by reflexivity.
  assert (Hne : Ex.v2 ≠ []) by done.
  assert (Hnew : Obj.get Ex.f3 Ex.two_fields = None) by reflexivity.
  assert (Hidx : Obj.array_index Ex.f3 = None) by reflexivity.
  assert (Hfield : Ex.f3 ≠ []) by done.
  assert (Htrim : trim (str " h1") = Ex.h1) by reflexivity.
  assert (Hv : JNum 5 ≠ JUndefined) by done.
  assert (Hf3 : Ex.f3 ≠ str "__proto__") by (by vm_compute).
  assert (Hh1 : Ex.h1 ≠ str "__proto__") by (by vm_compute).
  assert (Hv2 : Ex.v2 ≠ str "__proto__") by (by vm_compute).
  refine (conj Hschema (conj Hcan (conj Hne (conj Hnew (conj Hidx (conj Hfield
            (conj Hf3 (conj Hh1 (conj Hv2 (conj Htrim (conj Hv _))))))))))).
  exact (proj1 (forked_field_takes_its_label true Ex.service Ex.T Ex.f3 Ex.h1 Ex.v2
                  Ex.two_fields Hschema Hcan Hne Hnew Hidx Hfield Hf3 Hh1 Hv2)
           (str " h1") (JNum 5) Htrim Hv).
Defined.

(** ** Forking, continued *)

Lemma Obj_replace_same {V : Type} (k : list N) (v : V) (o : list (list N * V)) :
  Obj.get k o = Some v → Obj.replace k v o = o.
Proof.
  induction o as [|[k0 v0] o IH]; cbn; [done|].
  destruct (decide (k0 = k)) as [->|Hne].
  - by intros [= ->].
  - intros Hget. by rewrite IH.
Qed.

Lemma fork_canonical (fieldName headerName : jsstring)
    (src : option (list (list N * list N))) :
  Obj.canonical (Obj.set fieldName headerName (Obj.spread_into [] src)) = true.
Proof. by apply canonical_set, canonical_spread. Qed.

Lemma fork_again (fieldName headerName : jsstring)
    (src : option (list (list N * list N))) :
  Obj.set fieldName headerName
    (Obj.spread_into [] (Some (Obj.set fieldName headerName (Obj.spread_into [] src))))
  = Obj.set fieldName headerName (Obj.spread_into [] src).
Proof.
  rewrite Obj_spread_copy by apply fork_canonical.
  unfold Obj.set at 1. rewrite Obj_get_set_eq.
  apply Obj_replace_same, Obj_get_set_eq.
Qed.

(** X19.  [addField] is idempotent on the registry: repeating a call with
    the same arguments leaves the registry as the first call left it, also
    when the new version is the active one. *)
Theorem addField_idempotent (bus : bool) (this : Service)
    (sheetName fieldName headerName newVersion : jsstring) :
  final (addField bus sheetName fieldName headerName newVersion
           (final (addField bus sheetName fieldName headerName newVersion this)))
  = final (addField bus sheetName fieldName headerName newVersion this).
Proof.
  rewrite (addField_final bus this).
  destruct (schemas this !! sheetName) as [versions|] eqn:Hs.
  - rewrite addField_final. cbn [schemas currentVersions].
    rewrite lookup_insert_eq, !insert_insert_eq. do 3 f_equal.
    destruct (decide (newVersion = to_key (currentVersions this !! sheetName)))
      as [Heq|Hne].
    + rewrite <- Heq, lookup_insert_eq. apply fork_again.
    + by rewrite lookup_insert_ne.
  - by rewrite addField_final, Hs.
Qed.

(** X20.  A fork only adds: for a canonical active schema, the version
    [addField] stores gives [headerLabel] for [fieldName] and, for every
    other field, the label the active schema gives, no field dropped and
    none added. *)
Theorem addField_fork_is_additive (bus : bool) (this : Service)
    (sheetName fieldName headerName newVersion : jsstring)
    (o : list (list N * list N)) :
  outcome (getSchema sheetName this) = Return (Some o) →
  Obj.canonical o = true →
  ∃ versions' forked,
    schemas (final (addField bus sheetName fieldName headerName newVersion this))
      !! sheetName = Some versions'
    ∧ versions' !! newVersion = Some forked
    ∧ Obj.canonical forked = true
    ∧ ∀ field,
        Obj.get field forked
        = if decide (fieldName = field) then Some headerName else Obj.get field o.
Proof.
  intros (v & versions & [Hv _] & Hs & Hlook)%getSchema_Return_Some Hcan.
  rewrite addField_final, Hs, Hv. cbn [to_key schemas]. rewrite Hlook.
  eexists _, _. rewrite !lookup_insert_eq. split; [done|]. split; [done|].
  split; [apply fork_canonical|].
  intros field. by rewrite Obj_spread_copy, Obj_get_set.
Qed.

(** On the example sheet. *)
Lemma addField_fork_is_additive_witness :
  outcome (getSchema Ex.T Ex.service) = Return (Some Ex.two_fields)
  ∧ Obj.canonical Ex.two_fields = true
  ∧ ∃ versions' forked,
      schemas (final (addField true Ex.T Ex.f3 Ex.h3 Ex.v2 Ex.service)) !! Ex.T
      = Some versions'
      ∧ versions' !! Ex.v2 = Some forked
      ∧ Obj.canonical forked = true
      ∧ ∀ field,
          Obj.get field forked
          = if decide (Ex.f3 = field) then Some Ex.h3 else Obj.get field Ex.two_fields.
Proof.
  assert (Hschema : outcome (getSchema Ex.T Ex.service) = Return (Some Ex.two_fields))
    by reflexivity.
  assert (Hcan : Obj.canonical Ex.two_fields = true) by reflexivity.
  exact (conj Hschema (conj Hcan
           (addField_fork_is_additive true Ex.service Ex.T Ex.f3 Ex.h3 Ex.v2
              Ex.two_fields Hschema Hcan))).
Defined.

(** ** Empty inputs *)

Lemma filter_all {A : Type} (P : A → Prop) `{!∀ x, Decision (P x)} (l : list A) :
  (∀ x, x ∈ l → P x) → filter P l = l.
Proof.
  induction l as [|x l IH]; intros Hall; [done|].
  rewrite filter_cons, decide_True by (apply Hall, list_elem_of_here).
  f_equal. apply IH. intros y Hy. by apply Hall, list_elem_of_further.
Qed.

(** X21.  Empty inputs, on a table with an active schema.  With no actual
    header, [detectSchemaChanges] reports every expected header missing,
    none extra, and a change exactly when the schema has a field;
    [mapRowToObject] returns the empty mapping when there is no header or no
    row value. *)
Theorem reads_on_empty_input (this : Service) (sheetName : jsstring)
    (o : list (list N * list N)) :
  outcome (getSchema sheetName this) = Return (Some o) →
  outcome (detectSchemaChanges sheetName [] this)
  = Return {| missing := Obj.values o;
              extra := [];
              hasChanges := negb (bool_decide (o = [])) |}
  ∧ (∀ rowData, outcome (mapRowToObject sheetName [] rowData this) = Return ∅)
  ∧ (∀ headers, outcome (mapRowToObject sheetName headers [] this) = Return ∅).
Proof.
  intros Hschema. split; [|split].
  - rewrite detectSchemaChanges_run, getHeaders_run, Hschema. cbn [outcome].
    f_equal. cbn [fmap list_fmap list_to_set]. f_equal.
    + apply filter_all. intros h _. apply not_elem_of_empty.
    + destruct o as [|[f h] o]; [done|]. cbn.
      rewrite bool_decide_eq_true_2; [done|].
      rewrite size_empty. intros Hsize. symmetry in Hsize.
      apply size_empty_inv in Hsize. set_solver.
  - intros rowData. by rewrite (mapRowToObject_outcome _ _ _ _ _ Hschema).
  - intros headers. rewrite (mapRowToObject_outcome _ _ _ _ _ Hschema). f_equal.
    unfold forEach. by rewrite forEach_from_beyond_row.
Qed.

(** On the example sheet. *)
Lemma reads_on_empty_input_witness :
  outcome (getSchema Ex.T Ex.service) = Return (Some Ex.two_fields)
  ∧ outcome (detectSchemaChanges Ex.T [] Ex.service)
    = Return {| missing := [Ex.h1; Ex.h2]; extra := []; hasChanges := true |}.
Proof.
  assert (Hschema : outcome (getSchema Ex.T Ex.service) = Return (Some Ex.two_fields))
    by reflexivity.
  exact (conj Hschema
           (proj1 (reads_on_empty_input Ex.service Ex.T Ex.two_fields Hschema))).
Defined.

(** ** Headers and fields that meet [Object.prototype] *)

Lemma member_string_not_proto (name : jsstring) :
  member_string name ≠ str "__proto__".
Proof.
  intros Heq. apply (f_equal (λ s : list N, s !! 0%nat)) in Heq.
  unfold member_string in Heq. case_decide; vm_compute in Heq; congruence.
Qed.

(** X22.  What [mapRowToObject] does with names a plain object inherits.
    An actual header whose trimmed form is a member name of
    [Object.prototype] and no label of the active schema (or is
    ["__proto__"], label or not) is not ignored: the lookup finds the
    inherited member, and a present cell is stored under the member's string
    form.  A field named ["__proto__"] is never stored: the header of its
    label gives the empty mapping. *)
Theorem mapRowToObject_inherited_names (this : Service) (sheetName : jsstring)
    (o : list (list N * list N)) (header : jsstring) (v : jsval) :
  outcome (getSchema sheetName this) = Return (Some o) →
  v ≠ JUndefined →
  (trim header ∈ Object_prototype_names →
   trim header ∉ Obj.values o ∨ trim header = str "__proto__" →
   outcome (mapRowToObject sheetName [header] [v] this)
   = Return {[ member_string (trim header) := v ]})
  ∧ (field_of_label o (trim header) (str "__proto__") →
     trim header ≠ str "__proto__" →
     outcome (mapRowToObject sheetName [header] [v] this) = Return ∅).
Proof.
  intros Hschema Hv%is_defined_true.
  rewrite (mapRowToObject_outcome _ _ _ _ _ Hschema).
  unfold forEach. cbn [forEach_from]. unfold mapRowToObject_each, read.
  split.
  - intros Hmember Hlabel.
    assert (Hnone : _getReverseSchema (Some o) !! trim header = None).
    { destruct Hlabel as [Hlabel | ->]; [|apply reverse_proto].
      destruct (decide (trim header = str "__proto__")) as [-> | Hproto];
        [apply reverse_proto|].
      apply eq_None_not_Some. intros [field Hfield].
      apply reverse_lookup, field_of_label_elem in Hfield; [|done].
      apply Hlabel. unfold Obj.values. apply list_elem_of_fmap.
      by exists (field, trim header). }
    rewrite Hnone, bool_decide_eq_true_2 by done. cbn. rewrite Hv. f_equal.
    unfold assign.
    rewrite (bool_decide_eq_false_2 _ (member_string_not_proto (trim header))).
    cbn. by rewrite insert_empty.
  - intros Hfield Hproto. apply reverse_lookup in Hfield; [|done].
    rewrite Hfield. cbn. rewrite Hv.
    f_equal. unfold assign. cbn. by destruct v.
Qed.

(** On the example sheet: the header ["constructor"] is stored under the
    string form of the [Object] function, next to the decoded field. *)
Lemma mapRowToObject_inherited_names_witness :
  outcome (getSchema Ex.T Ex.service) = Return (Some Ex.two_fields)
  ∧ JNum 1 ≠ JUndefined
  ∧ trim (str "constructor") ∈ Object_prototype_names
  ∧ (trim (str "constructor") ∉ Obj.values Ex.two_fields
     ∨ trim (str "constructor") = str "__proto__")
  ∧ outcome (mapRowToObject Ex.T [str "constructor"] [JNum 1] Ex.service)
    = Return {[ str "function Object() { [native code] }" := JNum 1 ]}
  ∧ outcome (mapRowToObject Ex.T [str "constructor"; Ex.h2] [JNum 1; JNum 2] Ex.service)
    = Return (<[Ex.f2 := JNum 2]>
                {[ str "function Object() { [native code] }" := JNum 1 ]}).
Proof.
  assert (Hschema : outcome (getSchema Ex.T Ex.service) = Return (Some Ex.two_fields))
    by reflexivity.
  assert (Hv : JNum 1 ≠ JUndefined) by done.
  assert (Hmember : trim (str "constructor") ∈ Object_prototype_names)
    by (apply (bool_decide_unpack _); vm_compute; exact I).
  assert (Hlabel : trim (str "constructor") ∉ Obj.values Ex.two_fields
                   ∨ trim (str "constructor") = str "__proto__")
    by (left; apply (bool_decide_unpack _); vm_compute; exact I).
  refine (conj Hschema (conj Hv (conj Hmember (conj Hlabel (conj _ _))))).
  - exact (proj1 (mapRowToObject_inherited_names Ex.service Ex.T Ex.two_fields
                    (str "constructor") (JNum 1) Hschema Hv) Hmember Hlabel).
  - by vm_compute.
Defined.

(** X23.  The guard of [setVersion] on a known sheet.  The call returns
    exactly when [version] is a version of the sheet or a member name of
    [Object.prototype].  In the second case, when the sheet has no such
    version, the pointer a successful call leaves names no version of the
    sheet.  (The sheet is not named ["__proto__"], under which an assignment
    of a string stores nothing.) *)
Theorem setVersion_accepts_inherited_names (this : Service)
    (sheetName version : jsstring)
    (versions : gmap (list N) (list (list N * list N))) :
  schemas this !! sheetName = Some versions →
  (outcome (setVersion sheetName version this) = Return () ↔
     is_Some (versions !! version) ∨ version ∈ Object_prototype_names)
  ∧ (sheetName ≠ str "__proto__" →
     version ∈ Object_prototype_names →
     versions !! version = None →
     currentVersions (final (setVersion sheetName version this)) !! sheetName
     = Some version
     ∧ ¬ active_version_exists (final (setVersion sheetName version this)) sheetName).
Proof.
  intros Hs. rewrite setVersion_outcome, setVersion_final.
  unfold switches. rewrite Hs. cbn [from_option].
  rewrite <- has_member_true. split.
  - by destruct (has_member versions version).
  - intros _ Hmember Hnone.
    rewrite (proj2 (has_member_true versions version)) by (by right).
    cbn. rewrite lookup_insert_eq. split; [done|].
    intros (v & versions' & Hv & Hs' & Hin). cbn in Hv, Hs'.
    rewrite lookup_insert_eq in Hv. injection Hv as <-.
    rewrite Hs in Hs'. injection Hs' as <-. rewrite Hnone in Hin. by destruct Hin.
Qed.

(** On the example sheet: ["valueOf"] is accepted as a version, ["v2"],
    which was never created, is not. *)
Lemma setVersion_accepts_inherited_names_witness :
  schemas Ex.service !! Ex.T = Some {[ Ex.v1 := Ex.two_fields ]}
  ∧ Ex.T ≠ str "__proto__"
  ∧ str "valueOf" ∈ Object_prototype_names
  ∧ ({[ Ex.v1 := Ex.two_fields ]} : gmap (list N) (list (list N * list N)))
      !! str "valueOf" = None
  ∧ outcome (setVersion Ex.T (str "valueOf") Ex.service) = Return ()
  ∧ currentVersions (final (setVersion Ex.T (str "valueOf") Ex.service)) !! Ex.T
    = Some (str "valueOf")
  ∧ ¬ active_version_exists (final (setVersion Ex.T (str "valueOf") Ex.service)) Ex.T
  ∧ outcome (setVersion Ex.T Ex.v2 Ex.service) ≠ Return ().
Proof.
  assert (Hs : schemas Ex.service !! Ex.T = Some {[ Ex.v1 := Ex.two_fields ]})
    by reflexivity.
  assert (HT : Ex.T ≠ str "__proto__") by (by vm_compute).
  assert (Hmember : str "valueOf" ∈ Object_prototype_names)
    by (apply (bool_decide_unpack _); vm_compute; exact I).
  assert (Hnone : ({[ Ex.v1 := Ex.two_fields ]}
                     : gmap (list N) (list (list N * list N))) !! str "valueOf" = None)
    by reflexivity.
  destruct (setVersion_accepts_inherited_names Ex.service Ex.T (str "valueOf") _ Hs)
    as [Hguard Hpointer].
  destruct (Hpointer HT Hmember Hnone) as [Hv Hbroken].
  refine (conj Hs (conj HT (conj Hmember (conj Hnone
            (conj (proj2 Hguard (or_intror Hmember)) (conj Hv (conj Hbroken _))))))).
  by vm_compute.
Defined.
